(** * dompx: the docx templating engine, embedded and verified

    The development follows [dompx.py]: the paragraph walker
    ([paragraphs], [table_paragraphs]), the token scan of
    [compile], the dispatcher [domp], the three handlers ([replace], [img],
    [tbl]) and the evaluator [compile_expr].

    Text is modelled over the code points below 256 (Latin-1), one
    character of [string] each; the word class of the token pattern is the
    Unicode one on these code points.  Python values are the inductive
    [value]; floats are not modelled.  The calls into python-docx are
    modelled by their effect on a small document state (run text, pictures
    added to a run, tables appended to the body, tables spliced after a
    run). *)

From Stdlib Require Import String Ascii List ZArith Lia Bool Arith.
From Stdlib Require Import Numbers.DecimalString.
Import ListNotations.

Open Scope string_scope.
Open Scope bool_scope.

#[local] Set Warnings "-register-all".

(* ------------------------------------------------------------------ *)
(** ** Python strings *)

Module PyStr.

Definition code (c : ascii) : nat := nat_of_ascii c.

(** the double quote *)
Definition dquote : ascii := ascii_of_nat 34.

Definition in_range (lo hi : nat) (c : ascii) : bool :=
  Nat.leb lo (code c) && Nat.leb (code c) hi.

Definition is_lower (c : ascii) : bool := in_range 97 122 c.
Definition is_upper (c : ascii) : bool := in_range 65 90 c.
Definition is_digit (c : ascii) : bool := in_range 48 57 c.

(** the ASCII letters, digits and the underscore *)
Definition is_ascii_word (c : ascii) : bool :=
  is_lower c || is_upper c || is_digit c || Ascii.eqb c "_"%char.

(** the code points from 128 to 255 that are alphanumeric in Unicode:
    the ordinal indicators, the micro sign, the superscript digits, the
    vulgar fractions and the accented letters *)
Definition is_latin1_alnum (c : ascii) : bool :=
  existsb (Nat.eqb (code c)) [170; 178; 179; 181; 185; 186; 188; 189; 190]
  || in_range 192 214 c || in_range 216 246 c || in_range 248 255 c.

(** [\w] of a pattern on [str], compiled without [re.ASCII]: the
    alphanumeric characters of Unicode and the underscore. *)
Definition is_word (c : ascii) : bool :=
  is_ascii_word c || is_latin1_alnum c.

(** [s[1:]] *)
Definition tail (s : string) : string :=
  match s with
  | EmptyString => EmptyString
  | String _ s' => s'
  end.

Fixpoint rev (s : string) : string :=
  match s with
  | EmptyString => EmptyString
  | String c s' => rev s' ++ String c EmptyString
  end.

Fixpoint mem (c : ascii) (cs : string) : bool :=
  match cs with
  | EmptyString => false
  | String d cs' => Ascii.eqb c d || mem c cs'
  end.

Fixpoint lstrip (cs s : string) : string :=
  match s with
  | EmptyString => EmptyString
  | String c s' => if mem c cs then lstrip cs s' else s
  end.

Definition rstrip (cs s : string) : string := rev (lstrip cs (rev s)).

(** [s.strip(cs)] *)
Definition strip (cs s : string) : string := rstrip cs (lstrip cs s).

(** the longest prefix of [s] whose characters satisfy [p], and the rest *)
Fixpoint span (p : ascii -> bool) (s : string) : string * string :=
  match s with
  | EmptyString => (EmptyString, EmptyString)
  | String c s' =>
      if p c then let (a, b) := span p s' in (String c a, b)
      else (EmptyString, s)
  end.

(** [old in s]: [old] occurs in [s] as a substring *)
Fixpoint occurs (old s : string) : bool :=
  prefix old s ||
  match s with
  | EmptyString => false
  | String _ s' => occurs old s'
  end.

(** The scan of [str.replace]: [skip] counts the characters of the current
    occurrence of [old] still to be passed over. *)
Fixpoint replace_go (old new : string) (skip : nat) (s : string) : string :=
  match s with
  | EmptyString => EmptyString
  | String c s' =>
      match skip with
      | S k => replace_go old new k s'
      | O =>
          if prefix old s
          then new ++ replace_go old new (String.length old - 1) s'
          else String c (replace_go old new 0 s')
      end
  end.

Fixpoint intersperse (new s : string) : string :=
  match s with
  | EmptyString => EmptyString
  | String c s' => String c (new ++ intersperse new s')
  end.

(** [s.replace(old, new)]: every occurrence of [old], found left to right
    and not overlapping, becomes [new]; an empty [old] matches between the
    characters and at both ends. *)
Definition replace (old new s : string) : string :=
  match old with
  | EmptyString => new ++ intersperse new s
  | String _ _ => replace_go old new 0 s
  end.

End PyStr.

(* ------------------------------------------------------------------ *)
(** ** Python values *)

(** Dictionary keys: identifiers of the data mapping are strings; integer
    keys are kept for nested dictionaries. *)
Inductive key : Type :=
| KInt (z : Z)
| KStr (s : string).

Inductive value : Type :=
| VNone
| VBool (b : bool)
| VInt (z : Z)
| VStr (s : string)
| VTuple (items : list value)
| VList (items : list value)
| VDict (items : list (key * value))
| VBuiltin (name : string).

(** The exceptions the engine can meet. *)
Inductive pyerr : Type :=
| NameError
| TypeError
| ValueError
| KeyError
| IndexError
| AttributeError
| SyntaxError
| Unmodelled.     (* the input leaves the fragment of Python modelled here *)

Inductive res (A : Type) : Type :=
| Val (a : A)
| Exc (e : pyerr).
Arguments Val {A} a.
Arguments Exc {A} e.

Definition bind {A B : Type} (m : res A) (f : A -> res B) : res B :=
  match m with
  | Val a => f a
  | Exc e => Exc e
  end.

Notation "x <- m ;; k" := (bind m (fun x => k))
  (at level 61, m at next level, right associativity).
Notation "' pat <- m ;; k" := (bind m (fun x => match x with pat => k end))
  (at level 61, pat pattern, m at next level, right associativity).

Module Py.

Definition key_eqb (a b : key) : bool :=
  match a, b with
  | KInt x, KInt y => Z.eqb x y
  | KStr x, KStr y => String.eqb x y
  | _, _ => false
  end.

(** [bool(v)] *)
Definition truthy (v : value) : bool :=
  match v with
  | VNone => false
  | VBool b => b
  | VInt z => negb (Z.eqb z 0)
  | VStr s => negb (String.eqb s "")
  | VTuple l | VList l => negb (Nat.eqb (List.length l) 0)
  | VDict l => negb (Nat.eqb (List.length l) 0)
  | VBuiltin _ => true
  end.

Definition isinstance_str (v : value) : bool :=
  match v with VStr _ => true | _ => false end.
Definition isinstance_list (v : value) : bool :=
  match v with VList _ => true | _ => false end.

Definition str_of_Z (z : Z) : string := NilZero.string_of_int (Z.to_int z).

Definition hex_digit (n : nat) : ascii :=
  if Nat.ltb n 10 then ascii_of_nat (48 + n) else ascii_of_nat (87 + n).

(** characters [repr] writes as an escape *)
Definition unprintable (c : ascii) : bool :=
  let n := PyStr.code c in
  Nat.ltb n 32 || Nat.eqb n 127 || (Nat.leb 128 n && Nat.leb n 160)
  || Nat.eqb n 173.

Definition escape_char (q c : ascii) : string :=
  if Ascii.eqb c q then String "\" (String c "")
  else if Ascii.eqb c "\" then "\\"
  else if Ascii.eqb c "009" then "\t"
  else if Ascii.eqb c "010" then "\n"
  else if Ascii.eqb c "013" then "\r"
  else if unprintable c then
    String "\" (String "x" (String (hex_digit (PyStr.code c / 16))
                             (String (hex_digit (PyStr.code c mod 16)) "")))
  else String c "".

Fixpoint escape (q : ascii) (s : string) : string :=
  match s with
  | EmptyString => EmptyString
  | String c s' => escape_char q c ++ escape q s'
  end.

(** [repr(s)] of a string: single quotes, unless the text has a single quote
    and no double quote. *)
Definition repr_str (s : string) : string :=
  let q := if PyStr.mem "'" s && negb (PyStr.mem PyStr.dquote s)
           then PyStr.dquote else "'"%char in
  String q (escape q s ++ String q "").

(** the builtins that are classes print as [<class 'name'>] *)
Definition builtin_classes : list string :=
  [ "bool"; "bytearray"; "bytes"; "classmethod"; "complex"; "dict";
    "enumerate"; "filter"; "float"; "frozenset"; "int"; "list"; "map";
    "memoryview"; "object"; "property"; "range"; "reversed"; "set"; "slice";
    "staticmethod"; "str"; "super"; "tuple"; "type"; "zip" ].

Definition builtin_functions : list string :=
  [ "abs"; "all"; "any"; "ascii"; "bin"; "breakpoint"; "callable"; "chr";
    "compile"; "delattr"; "dir"; "divmod"; "eval"; "exec"; "format";
    "getattr"; "globals"; "hasattr"; "hash"; "hex"; "id"; "input";
    "isinstance"; "issubclass"; "iter"; "len"; "locals"; "max"; "min";
    "next"; "oct"; "open"; "ord"; "pow"; "print"; "repr"; "round";
    "setattr"; "sorted"; "sum"; "vars"; "__import__" ].

(** the exception classes of the builtins *)
Definition builtin_exceptions : list string :=
  [ "ArithmeticError"; "AssertionError"; "AttributeError"; "BaseException";
    "BlockingIOError"; "BrokenPipeError"; "BufferError"; "BytesWarning";
    "ChildProcessError"; "ConnectionAbortedError"; "ConnectionError";
    "ConnectionRefusedError"; "ConnectionResetError"; "DeprecationWarning";
    "EOFError"; "EnvironmentError"; "Exception"; "FileExistsError";
    "FileNotFoundError"; "FloatingPointError"; "FutureWarning";
    "GeneratorExit"; "IOError"; "ImportError"; "ImportWarning";
    "IndentationError"; "IndexError"; "InterruptedError";
    "IsADirectoryError"; "KeyError"; "KeyboardInterrupt"; "LookupError";
    "MemoryError"; "ModuleNotFoundError"; "NameError"; "NotADirectoryError";
    "NotImplementedError"; "OSError"; "OverflowError";
    "PendingDeprecationWarning"; "PermissionError"; "ProcessLookupError";
    "RecursionError"; "ReferenceError"; "ResourceWarning"; "RuntimeError";
    "RuntimeWarning"; "StopAsyncIteration"; "StopIteration"; "SyntaxError";
    "SyntaxWarning"; "SystemError"; "SystemExit"; "TabError"; "TimeoutError";
    "TypeError"; "UnboundLocalError"; "UnicodeDecodeError";
    "UnicodeEncodeError"; "UnicodeError"; "UnicodeTranslateError";
    "UnicodeWarning"; "UserWarning"; "ValueError"; "Warning";
    "ZeroDivisionError" ].

(** builtins whose value is not modelled: constants, the helpers the
    [site] module adds, and names that depend on the interpreter version *)
Definition builtin_others : list string :=
  [ "Ellipsis"; "NotImplemented"; "help"; "exit"; "quit"; "copyright";
    "credits"; "license"; "aiter"; "anext"; "__build_class__";
    "__name__"; "__doc__"; "__package__"; "__loader__"; "__spec__";
    "BaseExceptionGroup"; "ExceptionGroup"; "EncodingWarning";
    "WindowsError"; "PythonFinalizationError" ].

Definition in_names (n : string) (l : list string) : bool :=
  existsb (String.eqb n) l.

Definition repr_key (k : key) : string :=
  match k with
  | KInt z => str_of_Z z
  | KStr s => repr_str s
  end.

Definition join (sep : string) (l : list string) : string :=
  match l with
  | [] => ""
  | x :: xs => fold_left (fun acc y => acc ++ sep ++ y) xs x
  end.

(** [repr(v)] *)
Fixpoint repr (v : value) : string :=
  match v with
  | VNone => "None"
  | VBool true => "True"
  | VBool false => "False"
  | VInt z => str_of_Z z
  | VStr s => repr_str s
  | VTuple [x] => "(" ++ repr x ++ ",)"
  | VTuple l => "(" ++ join ", " (map repr l) ++ ")"
  | VList l => "[" ++ join ", " (map repr l) ++ "]"
  | VDict l =>
      "{" ++ join ", " (map (fun kv => repr_key (fst kv) ++ ": " ++ repr (snd kv)) l)
          ++ "}"
  | VBuiltin n =>
      if in_names n ["EnvironmentError"; "IOError"] then "<class 'OSError'>"
      else if in_names n builtin_classes || in_names n builtin_exceptions
      then "<class '" ++ n ++ "'>"
      else "<built-in function " ++ n ++ ">"
  end.

(** [str(v)]: the text itself for a string, [repr] for the rest (the limit
    that newer interpreters put on the digits of an integer is not
    modelled) *)
Definition str (v : value) : string :=
  match v with
  | VStr s => s
  | _ => repr v
  end.

End Py.

(* ------------------------------------------------------------------ *)
(** ** The token pattern

    The pattern compiled in [compile] has two groups.  The first is an at
    sign, an optional opening brace, one or more characters of the body
    class (word characters, dot, square brackets, both quotes, parentheses)
    and an optional closing brace; the second, optional, is an exclamation
    mark and one or more lower-case letters.  Every piece after the body is
    optional and the body class holds none of the at sign, the braces and
    the exclamation mark, so the greedy match at a position is found without
    backtracking. *)

Module Token.

(** the body class of the first group *)
Definition is_body (c : ascii) : bool :=
  PyStr.is_word c || PyStr.mem c ".[]'()" || Ascii.eqb c PyStr.dquote.

Definition opt_char (c : ascii) (s : string) : string * string :=
  match s with
  | String d s' => if Ascii.eqb c d then (String c "", s') else ("", s)
  | EmptyString => ("", s)
  end.

(** the second group, [(![a-z]+)?], at the head of [s] *)
Definition match_mod (s : string) : string :=
  match s with
  | String "!" s' =>
      match fst (PyStr.span PyStr.is_lower s') with
      | EmptyString => ""
      | letters => String "!" letters
      end
  | _ => ""
  end.

(** the match of the pattern that starts at the head of [s], as the pair of
    its two groups; an absent second group reads [""], as [findall] has it *)
Definition match_at (s : string) : option (string * string) :=
  match s with
  | String "@" s1 =>
      let (open, s2) := opt_char "{" s1 in
      let (body, s3) := PyStr.span is_body s2 in
      match body with
      | EmptyString => None
      | _ =>
          let (close, s4) := opt_char "}" s3 in
          Some (String "@" (open ++ body ++ close), match_mod s4)
      end
  | _ => None
  end.

(** [token.findall(text)]; [skip] counts the characters of the last match
    still to be passed over *)
Fixpoint findall_go (skip : nat) (s : string) : list (string * string) :=
  match s with
  | EmptyString => []
  | String _ s' =>
      match skip with
      | S k => findall_go k s'
      | O =>
          match match_at s with
          | Some (e, m) =>
              (e, m) :: findall_go (String.length e + String.length m - 1) s'
          | None => findall_go 0 s'
          end
      end
  end.

Definition findall (s : string) : list (string * string) := findall_go 0 s.

(** [token.search(text)], read as a truth value *)
Fixpoint search (s : string) : bool :=
  match s with
  | EmptyString => false
  | String _ s' =>
      match match_at s with
      | Some _ => true
      | None => search s'
      end
  end.

End Token.

(* ------------------------------------------------------------------ *)
(** ** Python expressions: the fragment a token body can spell

    A token body holds word characters, dots, brackets, quotes and
    parentheses only: names, integer and string literals, attribute access,
    subscripts and calls of at most one argument.  What the parser below
    does not accept (a name with a letter outside ASCII among the rest) is
    answered [Exc Unmodelled], never a Python error. *)

Inductive expr : Type :=
| EConst (v : value)
| EName (n : string)
| EAttr (e : expr) (attr : string)
| EIndex (e i : expr)
| ECall (f : expr) (args : list expr).

Module Parse.

Definition keywords : list string :=
  [ "and"; "as"; "assert"; "async"; "await"; "break"; "class"; "continue";
    "def"; "del"; "elif"; "else"; "except"; "finally"; "for"; "from";
    "global"; "if"; "import"; "in"; "is"; "lambda"; "nonlocal"; "not"; "or";
    "pass"; "raise"; "return"; "try"; "while"; "with"; "yield"; "__debug__" ].

Definition is_quote (c : ascii) : bool :=
  Ascii.eqb c "'" || Ascii.eqb c PyStr.dquote.

Definition starts_with (p : ascii -> bool) (s : string) : bool :=
  match s with
  | String c _ => p c
  | EmptyString => false
  end.

Fixpoint all_chars (p : ascii -> bool) (s : string) : bool :=
  match s with
  | EmptyString => true
  | String c s' => p c && all_chars p s'
  end.

Fixpoint decimal (acc : Z) (s : string) : Z :=
  match s with
  | EmptyString => acc
  | String c s' => decimal (10 * acc + Z.of_nat (PyStr.code c - 48)) s'
  end.

(** a name, one of the three constants, or nothing the fragment has *)
Definition word_atom (w : string) : res expr :=
  if String.eqb w "None" then Val (EConst VNone)
  else if String.eqb w "True" then Val (EConst (VBool true))
  else if String.eqb w "False" then Val (EConst (VBool false))
  else if Py.in_names w keywords then Exc Unmodelled
  else Val (EName w).

Definition parse_atom (s : string) : res (expr * string) :=
  match s with
  | EmptyString => Exc Unmodelled
  | String c s' =>
      if is_quote c then
        let (body, r) := PyStr.span (fun d => negb (Ascii.eqb d c)) s' in
        match r with
        | String _ r' =>
            if PyStr.mem "\" body || PyStr.mem "010" body
               || starts_with is_quote r'
            then Exc Unmodelled
            else Val (EConst (VStr body), r')
        | EmptyString => Exc Unmodelled
        end
      else if PyStr.is_ascii_word c then
        let (w, r) := PyStr.span PyStr.is_ascii_word s in
        if starts_with is_quote r then Exc Unmodelled
        else if all_chars PyStr.is_digit w then
          if starts_with (Ascii.eqb ".") r then Exc Unmodelled
          else if Ascii.eqb c "0" && negb (all_chars (Ascii.eqb "0") w)
          then Exc Unmodelled
          else Val (EConst (VInt (decimal 0 w)), r)
        else if PyStr.is_digit c then Exc Unmodelled
        else e <- word_atom w ;; Val (e, r)
      else Exc Unmodelled
  end.

Definition attr_name (w : string) : res string :=
  match w with
  | EmptyString => Exc Unmodelled
  | String c _ =>
      if PyStr.is_digit c || Py.in_names w keywords
         || Py.in_names w ["None"; "True"; "False"]
      then Exc Unmodelled
      else Val w
  end.

Fixpoint parse (fuel : nat) (s : string) {struct fuel} : res (expr * string) :=
  match fuel with
  | O => Exc Unmodelled
  | S f =>
      let fix trailers (n : nat) (e : expr) (r : string) {struct n}
        : res (expr * string) :=
        match n with
        | O => Exc Unmodelled
        | S n' =>
            match r with
            | EmptyString => Val (e, r)
            | String c r1 =>
                if Ascii.eqb c "." then
                  let (w, r2) := PyStr.span PyStr.is_ascii_word r1 in
                  if starts_with is_quote r2 then Exc Unmodelled
                  else a <- attr_name w ;; trailers n' (EAttr e a) r2
                else if Ascii.eqb c "[" then
                  '(i, r2) <- parse f r1 ;;
                  match r2 with
                  | String "]" r3 => trailers n' (EIndex e i) r3
                  | _ => Exc Unmodelled
                  end
                else if Ascii.eqb c "(" then
                  match r1 with
                  | String ")" r2 => trailers n' (ECall e []) r2
                  | _ =>
                      '(a, r2) <- parse f r1 ;;
                      match r2 with
                      | String ")" r3 => trailers n' (ECall e [a]) r3
                      | _ => Exc Unmodelled
                      end
                  end
                else if Ascii.eqb c "]" || Ascii.eqb c ")" then Val (e, r)
                else Exc Unmodelled
            end
        end in
      '(a, r) <- parse_atom s ;; trailers fuel a r
  end.

(** the whole text must be one expression *)
Definition parse_expr (s : string) : res expr :=
  '(e, r) <- parse (S (String.length s)) s ;;
  match r with
  | EmptyString => Val e
  | _ => Exc Unmodelled
  end.

End Parse.

(* ------------------------------------------------------------------ *)
(** ** Evaluation: [eval(source, globals, locals)] *)

(** A namespace: the data mapping is a dictionary with string keys. *)
Definition namespace : Type := list (string * value).

Module Eval.

Fixpoint lookup (n : string) (ns : namespace) : option value :=
  match ns with
  | [] => None
  | (k, v) :: ns' => if String.eqb n k then Some v else lookup n ns'
  end.

Definition is_builtin (n : string) : bool :=
  Py.in_names n Py.builtin_functions || Py.in_names n Py.builtin_classes
  || Py.in_names n Py.builtin_exceptions.

(** Name resolution of code run by [eval]: the locals, then the globals,
    then the builtins.  [eval] binds [__builtins__] in a globals dictionary
    that lacks it, so the builtins are reachable from the empty dictionary
    too. *)
Definition resolve (globals locals : namespace) (n : string) : res value :=
  match lookup n locals with
  | Some v => Val v
  | None =>
      match lookup n globals with
      | Some v => Val v
      | None =>
          if String.eqb n "__builtins__" then Exc Unmodelled
          else if is_builtin n then Val (VBuiltin n)
          else if Py.in_names n Py.builtin_others then Exc Unmodelled
          else Exc NameError
      end
  end.

Fixpoint hashable (v : value) : bool :=
  match v with
  | VList _ | VDict _ => false
  | VTuple l => forallb hashable l
  | _ => true
  end.

(** an index of a sequence: an integer, or a boolean read as one *)
Definition as_index (i : value) : option Z :=
  match i with
  | VInt z => Some z
  | VBool b => Some (if b then 1%Z else 0%Z)
  | _ => None
  end.

Definition seq_item {A : Type} (l : list A) (i : value) : res A :=
  match as_index i with
  | None => Exc TypeError
  | Some z =>
      let n := Z.of_nat (List.length l) in
      let z' := if (z <? 0)%Z then (z + n)%Z else z in
      if ((z' <? 0) || (n <=? z'))%Z then Exc IndexError
      else match nth_error l (Z.to_nat z') with
           | Some x => Val x
           | None => Exc IndexError
           end
  end.

Definition chars (s : string) : list string :=
  map (fun c => String c "") (list_ascii_of_string s).

Fixpoint dict_get (k : key) (d : list (key * value)) : res value :=
  match d with
  | [] => Exc KeyError
  | (k', v) :: d' => if Py.key_eqb k k' then Val v else dict_get k d'
  end.

(** [c[i]] *)
Definition subscript (c i : value) : res value :=
  match c with
  | VList l | VTuple l => seq_item l i
  | VStr s => x <- seq_item (chars s) i ;; Val (VStr x)
  | VDict d =>
      match i with
      | VInt z => dict_get (KInt z) d
      | VBool b => dict_get (KInt (if b then 1 else 0)) d
      | VStr s => dict_get (KStr s) d
      | _ => if hashable i then Exc KeyError else Exc TypeError
      end
  | VBuiltin n =>
      if Py.in_names n Py.builtin_functions then Exc TypeError
      else Exc Unmodelled
  | VNone | VBool _ | VInt _ => Exc TypeError
  end.

(** [len(v)] *)
Definition len (v : value) : res nat :=
  match v with
  | VStr s => Val (String.length s)
  | VList l | VTuple l => Val (List.length l)
  | VDict d => Val (List.length d)
  | _ => Exc TypeError
  end.

(** a call of [f] on the evaluated arguments; of the builtins, [len] and
    [str] are modelled *)
Definition call (f : value) (args : list value) : res value :=
  match f with
  | VBuiltin n =>
      if String.eqb n "len" then
        match args with
        | [x] => k <- len x ;; Val (VInt (Z.of_nat k))
        | _ => Exc TypeError
        end
      else if String.eqb n "str" then
        match args with
        | [] => Val (VStr "")
        | [x] => Val (VStr (Py.str x))
        | _ => Exc Unmodelled
        end
      else Exc Unmodelled
  | _ => Exc TypeError
  end.

Fixpoint eval_expr (globals locals : namespace) (e : expr) : res value :=
  match e with
  | EConst v => Val v
  | EName n => resolve globals locals n
  | EAttr e' _ => _ <- eval_expr globals locals e' ;; Exc Unmodelled
  | EIndex c i =>
      cv <- eval_expr globals locals c ;;
      iv <- eval_expr globals locals i ;;
      subscript cv iv
  | ECall f args =>
      fv <- eval_expr globals locals f ;;
      avs <- (fix go (l : list expr) : res (list value) :=
                match l with
                | [] => Val []
                | a :: l' =>
                    v <- eval_expr globals locals a ;;
                    vs <- go l' ;; Val (v :: vs)
                end) args ;;
      call fv avs
  end.

(** [eval(source, globals, locals)] *)
Definition eval (source : string) (globals locals : namespace) : res value :=
  e <- Parse.parse_expr source ;; eval_expr globals locals e.

End Eval.

(* ------------------------------------------------------------------ *)
(** ** [compile_expr] *)

(** [expr[1:].strip('{}')] is evaluated with an empty globals dictionary and
    the data as locals; a [NameError] is answered by the expression text
    itself, every other exception propagates. *)
Definition compile_expr (expr : string) (data : namespace) : res value :=
  match Eval.eval (PyStr.strip "{}" (PyStr.tail expr)) [] data with
  | Val v => Val v
  | Exc NameError => Val (VStr expr)
  | Exc e => Exc e
  end.

(* ------------------------------------------------------------------ *)
(** ** The document, as the handlers see it

    python-docx is outside the repository; its calls are modelled by what
    they leave in the document: [run.text = s] clears the run and sets its
    text,
    [run.add_picture] adds a picture to the run, [doc.add_table] appends a
    table to the document body, [table.cell(r, c).text = s] writes a cell,
    [run.element.addnext(table._tbl)] moves the table right behind the run.
    Failures inside the library (a picture file that cannot be opened, a
    style the template lacks) are not modelled. *)

(** A length handed to [add_picture]: [width and Mm(width)] is the falsy
    value itself, or the length in EMU. *)
Inductive dim : Type :=
| DRaw (v : value)
| DEmu (emu : Z).

Record picture : Type := mkPicture {
  pic_path : value;
  pic_width : dim;
  pic_height : dim
}.

(** A table made by [add_table]: its cells in one row-major list, as
    [Table.cell] addresses them. *)
Record new_table : Type := mkTable {
  tbl_rows : nat;
  tbl_cols : nat;
  tbl_style : string;
  tbl_cells : list string
}.

Record run : Type := mkRun {
  text : string;
  pictures : list picture;        (* added by [add_picture], in order *)
  following : list new_table      (* spliced behind the run, nearest first *)
}.

Record paragraph : Type := mkParagraph {
  runs : list run
}.

(** A table of the template: its columns, each a list of cells; a cell owns
    paragraphs and tables of its own. *)
Inductive table : Type :=
| mkTbl (columns : list (list cell))
with cell : Type :=
| mkCell (cell_paragraphs : list paragraph) (cell_tables : list table).

(** a header or a footer *)
Record block : Type := mkBlock {
  blk_paragraphs : list paragraph;
  blk_tables : list table
}.

Record section : Type := mkSection {
  header : block;
  footer : block
}.

(** The document: what the walker reads, and [appended], the tables that
    [add_table] has put at the end of the body, the only part the handlers
    change. *)
Record document : Type := mkDocument {
  doc_paragraphs : list paragraph;
  doc_tables : list table;
  doc_sections : list section;
  appended : list new_table
}.

Definition with_appended (doc : document) (l : list new_table) : document :=
  mkDocument (doc_paragraphs doc) (doc_tables doc) (doc_sections doc) l.

(** [run.text = s]: python-docx clears the content of the run, the
    pictures in it among it, and writes the text; the tables behind the run
    are no content of the run and stay. *)
Definition set_text (r : run) (s : string) : run :=
  mkRun s [] (following r).

(** [paragraph.text], a property of python-docx: the text of the runs, in
    order *)
Definition paragraph_text (p : paragraph) : string :=
  fold_right (fun r acc => text r ++ acc) "" (runs p).

Module Docx.

(** [Mm(v)]: [int(v * 36000)] *)
Definition Mm (v : value) : res Z :=
  match v with
  | VInt z => Val (z * 36000)%Z
  | VBool b => Val (if b then 36000 else 0)%Z
  | VStr _ => Exc Unmodelled
  | _ => Exc TypeError
  end.

(** [v and Mm(v)] *)
Definition and_Mm (v : value) : res dim :=
  if Py.truthy v then z <- Mm v ;; Val (DEmu z) else Val (DRaw v).

Definition add_picture (r : run) (pic : picture) : run :=
  mkRun (text r) (pictures r ++ [pic]) (following r).

(** [doc.add_table(rows, cols)]: a table of empty cells, appended to the
    body *)
Definition add_table (doc : document) (rows cols : nat)
  : document * new_table :=
  let t := mkTable rows cols "" (repeat "" (rows * cols)) in
  (with_appended doc (appended doc ++ [t]), t).

Definition set_style (t : new_table) (style : string) : new_table :=
  mkTable (tbl_rows t) (tbl_cols t) style (tbl_cells t).

Fixpoint set_nth {A : Type} (n : nat) (x : A) (l : list A) : list A :=
  match l, n with
  | [], _ => []
  | _ :: l', O => x :: l'
  | y :: l', S n' => y :: set_nth n' x l'
  end.

(** [table.cell(ridx, cidx).text = s]: the cell is number
    [cidx + ridx * columns] of the row-major list; an index past its end
    raises [IndexError] *)
Definition set_cell (t : new_table) (ridx cidx : nat) (s : string)
  : res new_table :=
  let idx := cidx + ridx * tbl_cols t in
  if Nat.ltb idx (List.length (tbl_cells t))
  then Val (mkTable (tbl_rows t) (tbl_cols t) (tbl_style t)
                    (set_nth idx s (tbl_cells t)))
  else Exc IndexError.

(** [run.element.addnext(table._tbl)]: the table, until then the last one
    appended to the body, is moved right behind the run *)
Definition addnext (doc : document) (r : run) (t : new_table)
  : document * run :=
  (with_appended doc (removelast (appended doc)),
   mkRun (text r) (pictures r) (t :: following r)).

End Docx.

(* ------------------------------------------------------------------ *)
(** ** The handlers *)

(** the values a [for] loop can run over *)
Definition iterate (v : value) : res (list value) :=
  match v with
  | VList l | VTuple l => Val l
  | VStr s => Val (map VStr (Eval.chars s))
  | VDict d =>
      Val (map (fun kv => match fst kv with
                          | KInt z => VInt z
                          | KStr s => VStr s
                          end) d)
  | _ => Exc TypeError
  end.

Definition replace (doc : document) (r : run) (expr md : string)
    (data : namespace) : res (document * run) :=
  v <- compile_expr expr data ;;
  Val (doc, set_text r (PyStr.replace (expr ++ md) (Py.str v) (text r))).

(** the call of [run.add_picture] that ends [img] *)
Definition embed (doc : document) (r : run) (path width height : value)
  : res (document * run) :=
  w <- Docx.and_Mm width ;;
  h <- Docx.and_Mm height ;;
  Val (doc, Docx.add_picture r (mkPicture path w h)).

Definition img (doc : document) (r : run) (expr md : string)
    (data : namespace) : res (document * run) :=
  let r := set_text r (PyStr.replace (expr ++ md) "" (text r)) in
  picture <- compile_expr expr data ;;
  if Py.truthy picture then
    if Py.isinstance_str picture then embed doc r picture VNone VNone
    else
      match picture with
      | VTuple [path; width; height] => embed doc r path width height
      | VTuple _ => Exc ValueError       (* the unpacking fails *)
      | _ => Val (doc, r)
      end
  else Val (doc, r).

(** the inner loop of [tbl]: the cells of one row *)
Fixpoint fill_row (t : new_table) (ridx cidx : nat) (cells : list value)
  : res new_table :=
  match cells with
  | [] => Val t
  | cell :: cells' =>
      t' <- Docx.set_cell t ridx cidx (Py.str cell) ;;
      fill_row t' ridx (S cidx) cells'
  end.

(** the outer loop of [tbl]: the rows of the matrix *)
Fixpoint fill_rows (t : new_table) (ridx : nat) (rows : list value)
  : res new_table :=
  match rows with
  | [] => Val t
  | row :: rows' =>
      cells <- iterate row ;;
      t' <- fill_row t ridx 0 cells ;;
      fill_rows t' (S ridx) rows'
  end.

Definition tbl (doc : document) (r : run) (expr md : string)
    (data : namespace) : res (document * run) :=
  let r := set_text r (PyStr.replace (expr ++ md) "" (text r)) in
  matrix <- compile_expr expr data ;;
  if Py.truthy matrix then
    not_list_shaped <-
      (if negb (Py.isinstance_list matrix) then
         first <- Eval.subscript matrix (VInt 0) ;;
         Val (negb (Py.isinstance_list first))
       else Val false) ;;
    if (not_list_shaped : bool) then Val (doc, r)
    else
      n_rows <- Eval.len matrix ;;
      first <- Eval.subscript matrix (VInt 0) ;;
      n_cols <- Eval.len first ;;
      let (doc, table) := Docx.add_table doc n_rows n_cols in
      let table := Docx.set_style table "Table Grid" in
      rows <- iterate matrix ;;
      table <- fill_rows table 0 rows ;;
      Val (Docx.addnext doc r table)
  else Val (doc, r).

(* ------------------------------------------------------------------ *)
(** ** [domp] *)

(** What a name of the module's namespace is bound to: one of the three
    handlers, or something else (a module, a class, a function of another
    arity), whose call with the five arguments of a handler raises
    [TypeError]. *)
Inductive global : Type :=
| GReplace
| GImg
| GTbl
| GOther.

(** [globals()] of the module, imported as a library *)
Definition globals : list (string * global) :=
  [ ("__name__", GOther); ("__doc__", GOther); ("__package__", GOther);
    ("__loader__", GOther); ("__spec__", GOther); ("__file__", GOther);
    ("__cached__", GOther); ("__builtins__", GOther);
    ("io", GOther); ("re", GOther); ("Pattern", GOther);
    ("Iterable", GOther); ("partial", GOther); ("Document", GOther);
    ("Mm", GOther); ("Run", GOther); ("Paragraph", GOther);
    ("paragraphs", GOther); ("table_paragraphs", GOther); ("domp", GOther);
    ("replace", GReplace); ("img", GImg); ("tbl", GTbl);
    ("compile_expr", GOther); ("compile", GOther) ].

Fixpoint globals_get (n : string) (g : list (string * global))
    (default : global) : global :=
  match g with
  | [] => default
  | (k, v) :: g' => if String.eqb n k then v else globals_get n g' default
  end.

(** [globals().get(mod[1:], replace)] *)
Definition dispatch (md : string) : global :=
  globals_get (PyStr.tail md) globals GReplace.

Definition call_global (g : global) (doc : document) (r : run)
    (expr md : string) (data : namespace) : res (document * run) :=
  match g with
  | GReplace => replace doc r expr md data
  | GImg => img doc r expr md data
  | GTbl => tbl doc r expr md data
  | GOther => Exc TypeError
  end.

(** the inner loop of [domp]: the matches found in the text the run had
    when the loop began, each handed to its handler *)
Fixpoint run_tokens (doc : document) (r : run)
    (tokens : list (string * string)) (data : namespace)
  : res (document * run) :=
  match tokens with
  | [] => Val (doc, r)
  | (expr, md) :: tokens' =>
      '(doc', r') <- call_global (dispatch md) doc r expr md data ;;
      run_tokens doc' r' tokens' data
  end.

(** the outer loop of [domp]: the runs of the paragraph, in order *)
Fixpoint domp_runs (doc : document) (items : list run) (data : namespace)
  : res (document * list run) :=
  match items with
  | [] => Val (doc, [])
  | item :: items' =>
      '(doc1, item') <- run_tokens doc item (Token.findall (text item)) data ;;
      '(doc2, rest) <- domp_runs doc1 items' data ;;
      Val (doc2, item' :: rest)
  end.

Definition domp (p : paragraph) (doc : document) (data : namespace)
  : res (document * paragraph) :=
  if negb (Token.search (paragraph_text p)) then Val (doc, p)
  else
    '(doc', items) <- domp_runs doc (runs p) data ;;
    Val (doc', mkParagraph items).

Definition plain (s : string) : run := mkRun s [] [].
Definition empty_doc : document := mkDocument [] [] [] [].

(* ------------------------------------------------------------------ *)
(** ** The paragraph walker *)

Open Scope list_scope.

(** The loops of [table_paragraphs] over one table: its columns, the cells
    of a column, then the paragraphs of a cell followed by the recursive
    call on the tables of the cell. *)
Fixpoint walk_table (t : table) : list paragraph :=
  match t with
  | mkTbl cols =>
      (fix over_cols (cols : list (list cell)) : list paragraph :=
         match cols with
         | [] => []
         | col :: cols' =>
             (fix over_cells (cells : list cell) : list paragraph :=
                match cells with
                | [] => []
                | c :: cells' => walk_cell c ++ over_cells cells'
                end) col ++ over_cols cols'
         end) cols
  end
with walk_cell (c : cell) : list paragraph :=
  match c with
  | mkCell ps ts =>
      ps ++
      (fix over_tables (ts : list table) : list paragraph :=
         match ts with
         | [] => []
         | t :: ts' => walk_table t ++ over_tables ts'
         end) ts
  end.

Fixpoint table_paragraphs (tables : list table) : list paragraph :=
  match tables with
  | [] => []
  | t :: tables' => walk_table t ++ table_paragraphs tables'
  end.

(** [paragraphs(document)], as the list of what the generator yields;
    [document.sections[0]] raises [IndexError] on a document without a
    section (what was yielded before is then not kept here). *)
Definition paragraphs (d : document) : res (list paragraph) :=
  let body := doc_paragraphs d ++ table_paragraphs (doc_tables d) in
  match doc_sections d with
  | [] => Exc IndexError
  | s :: _ =>
      Val (body
           ++ blk_paragraphs (header s) ++ table_paragraphs (blk_tables (header s))
           ++ blk_paragraphs (footer s) ++ table_paragraphs (blk_tables (footer s)))
  end.

(** The order as the specification words it: per table, per column, per
    cell, the cell's own paragraphs and then the paragraphs of the tables
    nested in the cell. *)
Module WalkSpec.

Fixpoint of_table (t : table) : list paragraph :=
  match t with
  | mkTbl cols => flat_map (fun col => flat_map of_cell col) cols
  end
with of_cell (c : cell) : list paragraph :=
  match c with
  | mkCell ps ts => ps ++ flat_map of_table ts
  end.

Definition of_tables (ts : list table) : list paragraph :=
  flat_map of_table ts.

Definition of_block (b : block) : list paragraph :=
  blk_paragraphs b ++ of_tables (blk_tables b).

(** the six stages, in order *)
Definition order (d : document) (s : section) : list paragraph :=
  doc_paragraphs d ++ of_tables (doc_tables d)
  ++ blk_paragraphs (header s) ++ of_tables (blk_tables (header s))
  ++ blk_paragraphs (footer s) ++ of_tables (blk_tables (footer s)).

(** a paragraph reachable from a table, or from a cell *)
Inductive in_table : paragraph -> table -> Prop :=
| in_table_cell p cols col c :
    In col cols -> In c col -> in_cell p c -> in_table p (mkTbl cols)
with in_cell : paragraph -> cell -> Prop :=
| in_cell_own p ps ts : In p ps -> in_cell p (mkCell ps ts)
| in_cell_nested p ps ts t :
    In t ts -> in_table p t -> in_cell p (mkCell ps ts).

Definition in_block (p : paragraph) (b : block) : Prop :=
  In p (blk_paragraphs b) \/ exists t, In t (blk_tables b) /\ in_table p t.

(** a paragraph reachable from the document: in the body, the header or the
    footer of the first section, at any depth of table nesting *)
Definition reachable (p : paragraph) (d : document) (s : section) : Prop :=
  In p (doc_paragraphs d)
  \/ (exists t, In t (doc_tables d) /\ in_table p t)
  \/ in_block p (header s) \/ in_block p (footer s).

End WalkSpec.

Open Scope string_scope.

(* ------------------------------------------------------------------ *)
(** ** What [str.replace] is to compute *)

Module ReplaceSpec.

(** [Replaced old new s s']: [s'] is [s] with the occurrences of [old], taken
    left to right and never overlapping, each turned into [new]. *)
Inductive Replaced (old new : string) : string -> string -> Prop :=
| R_end : Replaced old new "" ""
| R_hit b b' :
    Replaced old new b b' -> Replaced old new (old ++ b) (new ++ b')
| R_miss c s s' :
    prefix old (String c s) = false ->
    Replaced old new s s' -> Replaced old new (String c s) (String c s').

End ReplaceSpec.

(* ------------------------------------------------------------------ *)
(** ** Induction through nested tables *)

(** Induction over tables and cells, through the lists that nest them. *)
Section TableInduction.

Variable P : table -> Prop.
Variable Q : cell -> Prop.
Hypothesis table_step :
  forall cols, Forall (Forall Q) cols -> P (mkTbl cols).
Hypothesis cell_step :
  forall ps ts, Forall P ts -> Q (mkCell ps ts).

Fixpoint table_nested_ind (t : table) : P t :=
  match t with
  | mkTbl cols =>
      table_step cols
        ((fix over_cols (cols : list (list cell)) : Forall (Forall Q) cols :=
            match cols with
            | [] => Forall_nil _
            | col :: cols' =>
                Forall_cons col
                  ((fix over_cells (cells : list cell) : Forall Q cells :=
                      match cells with
                      | [] => Forall_nil _
                      | c :: cells' =>
                          Forall_cons c (cell_nested_ind c) (over_cells cells')
                      end) col)
                  (over_cols cols')
            end) cols)
  end
with cell_nested_ind (c : cell) : Q c :=
  match c with
  | mkCell ps ts =>
      cell_step ps ts
        ((fix over_tables (ts : list table) : Forall P ts :=
            match ts with
            | [] => Forall_nil _
            | t :: ts' =>
                Forall_cons t (table_nested_ind t) (over_tables ts')
            end) ts)
  end.

End TableInduction.

(* ------------------------------------------------------------------ *)
(** ** Claims, as they are stated *)

(** The claim C9 as it is stated, in what it says of the place: the table
    is put behind the paragraph of the run, so that the tables behind the
    run inside its paragraph are the ones it had. *)
Definition table_follows_paragraph : Prop :=
  forall (doc doc' : document) (r r' : run) (expr md : string)
         (data : namespace) (first : list value) (rest : list (list value)),
    compile_expr expr data = Val (VList (map VList (first :: rest))) ->
    Forall (fun row => List.length row = List.length first) rest ->
    tbl doc r expr md data = Val (doc', r') ->
    following r' = following r.


(* ------------------------------------------------------------------ *)
(** ** Helpers of the proofs *)

Definition with_cells (t : new_table) (cells : list string) : new_table :=
  mkTable (tbl_rows t) (tbl_cols t) (tbl_style t) cells.

(** a document with a table nested in a cell *)
Definition nested_document : document :=
  let p := fun s => mkParagraph [plain s] in
  let inner := mkTbl [[mkCell [p "inner"] []]] in
  let outer :=
    mkTbl [ [mkCell [p "a1"] [inner]; mkCell [p "a2"] []];
            [mkCell [p "b1"] []; mkCell [p "b2"] []] ] in
  mkDocument [p "body"] [outer]
             [mkSection (mkBlock [p "head"] []) (mkBlock [p "foot"] [])] [].

(** take apart the head test of a computation that is known to succeed *)
Ltac break_res H :=
  repeat (match type of H with
          | context [bind ?m _] =>
              let E := fresh "E" in destruct m eqn:E; cbn [bind] in H
          | context [match ?x with _ => _ end] =>
              let E := fresh "E" in destruct x eqn:E
          | context [if ?b then _ else _] =>
              let E := fresh "E" in destruct b eqn:E
          end; try discriminate H).

(* ------------------------------------------------------------------ *)
(** ** The main loop of [compile] *)

(** [domp] on each paragraph of a sequence, in order; the first exception
    ends the loop.  [domp] returns [None], so [any] runs through the whole
    of the sequence. *)
Fixpoint domp_all (doc : document) (ps : list paragraph) (data : namespace)
  : res (document * list paragraph) :=
  match ps with
  | [] => Val (doc, [])
  | p :: ps' =>
      '(doc1, p') <- domp p doc data ;;
      '(doc2, rest) <- domp_all doc1 ps' data ;;
      Val (doc2, p' :: rest)
  end.

(** [any(map(partial(domp, ...), paragraphs(doc)))], as the paragraphs it
    leaves, in the order of the walk.  The walker is a generator: the
    paragraphs of the body and of its tables are handled before
    [document.sections[0]] is evaluated.  The paragraphs yielded are taken
    to be distinct objects (no cell is reached through two columns);
    loading and saving the document are outside the model. *)
Definition compile_loop (d : document) (data : namespace)
  : res (document * list paragraph) :=
  '(d1, body) <-
     domp_all d (doc_paragraphs d ++ table_paragraphs (doc_tables d))%list
              data ;;
  match doc_sections d with
  | [] => Exc IndexError
  | s :: _ =>
      '(d2, rest) <-
         domp_all d1
           (blk_paragraphs (header s)
            ++ table_paragraphs (blk_tables (header s))
            ++ blk_paragraphs (footer s)
            ++ table_paragraphs (blk_tables (footer s)))%list data ;;
      Val (d2, (body ++ rest)%list)
  end.

(* ------------------------------------------------------------------ *)
(** ** Further helpers of the proofs *)

(** the names of the module that a modifier can spell and that are no
    handlers *)
Definition crashing_modifiers : list string :=
  ["io"; "re"; "partial"; "paragraphs"; "domp"; "compile"].

(** a computation that does not end in [NameError] *)
Definition no_name_error {A : Type} (m : res A) : Prop := m <> Exc NameError.

(** a Python identifier within the fragment: word characters, the first no
    digit, and neither a keyword nor one of the three constants *)
Definition is_identifier (n : string) : bool :=
  Parse.starts_with (fun c => negb (PyStr.is_digit c)) n
  && Parse.all_chars PyStr.is_ascii_word n
  && negb (Py.in_names n ["None"; "True"; "False"])
  && negb (Py.in_names n Parse.keywords).



(** a row of the matrix as the cells of a table row of [cols] columns: the
    string forms of its entries, then empty cells *)
Definition padded_row (cols : nat) (row : list value) : list string :=
  (map Py.str row ++ repeat "" (cols - List.length row))%list.

(* ------------------------------------------------------------------ *)
(** ** The model on concrete inputs *)

Example replace_all_occurrences :
  PyStr.replace "@a" "X" "p @a q @a r" = "p X q X r".
Proof. reflexivity. Qed.

Example replace_empty_old : PyStr.replace "" "-" "abc" = "-a-b-c-".
Proof. reflexivity. Qed.

Example strip_braces : PyStr.strip "{}" "{data['k']}" = "data['k']".
Proof. reflexivity. Qed.

Example str_of_matrix :
  Py.str (VList [VList [VInt 1; VStr "a"]; VList [VInt (-3); VNone]])
  = "[[1, 'a'], [-3, None]]".
Proof. reflexivity. Qed.

Example str_of_triple :
  Py.str (VTuple [VStr "qr.png"; VInt 10; VNone]) = "('qr.png', 10, None)".
Proof. reflexivity. Qed.

Example findall_plain :
  Token.findall "Dear @name, see @{data['key']}!ss and @qr!img."
  = [("@name", ""); ("@{data['key']}", "!ss"); ("@qr", "!img")].
Proof. reflexivity. Qed.

Example findall_double_quoted :
  Token.findall ("@{d[" ++ String PyStr.dquote ("k" ++ String PyStr.dquote "]}!tbl"))
  = [("@{d[" ++ String PyStr.dquote ("k" ++ String PyStr.dquote "]}"), "!tbl")].
Proof. reflexivity. Qed.

Example findall_no_body : Token.findall "a@ b @{} c @!img" = [].
Proof. reflexivity. Qed.

Example findall_brace_unclosed :
  Token.findall "@{x!tbl @y}!A" = [("@{x", "!tbl"); ("@y}", "")].
Proof. reflexivity. Qed.

Example parse_subscript :
  Parse.parse_expr "data['key'][0]"
  = Val (EIndex (EIndex (EName "data") (EConst (VStr "key"))) (EConst (VInt 0))).
Proof. reflexivity. Qed.

Example parse_call :
  Parse.parse_expr "len(rows[1])"
  = Val (ECall (EName "len") [EIndex (EName "rows") (EConst (VInt 1))]).
Proof. reflexivity. Qed.

Example parse_method : Parse.parse_expr "name.upper()"
  = Val (ECall (EAttr (EName "name") "upper") []).
Proof. reflexivity. Qed.

Example parse_outside_fragment : Parse.parse_expr "[1]" = Exc Unmodelled.
Proof. reflexivity. Qed.

Example compile_expr_name :
  compile_expr "@name" [("name", VStr "Ann")] = Val (VStr "Ann").
Proof. reflexivity. Qed.

Example compile_expr_braces :
  compile_expr "@{data['key'][1]}"
    [("data", VDict [(KStr "key", VList [VInt 7; VInt 8])])] = Val (VInt 8).
Proof. reflexivity. Qed.

Example compile_expr_missing :
  compile_expr "@missing" [("name", VStr "Ann")] = Val (VStr "@missing").
Proof. reflexivity. Qed.

Example compile_expr_key_error :
  compile_expr "@d['k']" [("d", VDict [])] = Exc KeyError.
Proof. reflexivity. Qed.

Example domp_name :
  domp (mkParagraph [plain "Dear @name,"]) empty_doc [("name", VStr "Ann")]
  = Val (empty_doc, mkParagraph [plain "Dear Ann,"]).
Proof. reflexivity. Qed.

Example domp_photo :
  domp (mkParagraph [plain "x @photo!img y"]) empty_doc
       [("photo", VTuple [VStr "a.png"; VInt 10; VNone])]
  = Val (empty_doc,
         mkParagraph [mkRun "x  y"
                        [mkPicture (VStr "a.png") (DEmu 360000) (DRaw VNone)]
                        []]).
Proof. reflexivity. Qed.

Example domp_grid :
  domp (mkParagraph [plain "@grid!tbl"]) empty_doc
       [("grid", VList [VList [VInt 1; VInt 2]; VList [VInt 3; VInt 4]])]
  = Val (empty_doc,
         mkParagraph [mkRun "" []
                        [mkTable 2 2 "Table Grid" ["1"; "2"; "3"; "4"]]]).
Proof. reflexivity. Qed.

Example domp_grid_not_a_list :
  domp (mkParagraph [plain "@grid!tbl"]) empty_doc
       [("grid", VStr "not-a-list")]
  = Val (empty_doc, mkParagraph [plain ""]).
Proof. reflexivity. Qed.

(* ------------------------------------------------------------------ *)
(** ** [str.replace]: what the scan computes *)

Lemma prefix_append (a b : string) : prefix a (a ++ b) = true.
Proof.
  induction a as [|c a IH]; simpl.
  - now destruct b.
  - destruct (ascii_dec c c) as [_|n]; [exact IH | now elim n].
Qed.

Lemma prefix_split (a s : string) :
  prefix a s = true -> exists b, s = a ++ b.
Proof.
  revert s; induction a as [|c a IH]; intros s H.
  - now exists s.
  - destruct s as [|d s]; simpl in H; [discriminate|].
    destruct (ascii_dec c d) as [->|_]; [|discriminate].
    destruct (IH _ H) as [b ->]. now exists b.
Qed.

Lemma length_append (a b : string) :
  String.length (a ++ b) = String.length a + String.length b.
Proof. induction a; simpl; congruence. Qed.

Lemma replace_go_skip (old new x s : string) :
  PyStr.replace_go old new (String.length x) (x ++ s)
  = PyStr.replace_go old new 0 s.
Proof. induction x as [|c x IH]; simpl; [reflexivity | exact IH]. Qed.

Lemma replace_go_hit (old new b : string) :
  old <> "" ->
  PyStr.replace_go old new 0 (old ++ b)
  = new ++ PyStr.replace_go old new 0 b.
Proof.
  intros Hne. destruct old as [|c o]; [now elim Hne|].
  change (String c o ++ b) with (String c (o ++ b)).
  cbn [PyStr.replace_go].
  change (String c (o ++ b)) with (String c o ++ b).
  rewrite prefix_append.
  replace (String.length (String c o) - 1) with (String.length o)
    by (cbn [String.length]; lia).
  now rewrite replace_go_skip.
Qed.

Lemma replace_go_miss (old new : string) (c : ascii) (s : string) :
  prefix old (String c s) = false ->
  PyStr.replace_go old new 0 (String c s)
  = String c (PyStr.replace_go old new 0 s).
Proof. intros H. cbn [PyStr.replace_go]. now rewrite H. Qed.

(** strong induction on the length of the text *)
Lemma string_length_ind (P : string -> Prop) :
  (forall s, (forall t, String.length t < String.length s -> P t) -> P s) ->
  forall s, P s.
Proof.
  intros step s.
  assert (H : forall n t, String.length t < n -> P t).
  { induction n as [|n IH]; intros t Ht; [lia|].
    apply step. intros u Hu. apply IH. lia. }
  apply (H (S (String.length s))). lia.
Qed.

Lemma replace_go_Replaced (old new s : string) :
  old <> "" ->
  ReplaceSpec.Replaced old new s (PyStr.replace_go old new 0 s).
Proof.
  intros Hne. induction s as [s IH] using string_length_ind.
  destruct s as [|c s]; [constructor|].
  destruct (prefix old (String c s)) eqn:Hp.
  - destruct (prefix_split _ _ Hp) as [b Hb]. rewrite Hb.
    rewrite replace_go_hit by assumption.
    constructor. apply IH. rewrite Hb, length_append.
    destruct old; [now elim Hne | simpl; lia].
  - rewrite replace_go_miss by assumption.
    constructor; [assumption|]. apply IH. simpl. lia.
Qed.

Lemma replace_Replaced (old new s : string) :
  old <> "" -> ReplaceSpec.Replaced old new s (PyStr.replace old new s).
Proof.
  intros Hne. unfold PyStr.replace.
  destruct old; [now elim Hne|]. now apply replace_go_Replaced.
Qed.




(* ------------------------------------------------------------------ *)
(** ** Dispatch *)

Lemma globals_get_unbound (n : string) (g : list (string * global))
    (default : global) :
  Py.in_names n (map fst g) = false -> globals_get n g default = default.
Proof.
  induction g as [|[k v] g IH]; simpl; intros H; [reflexivity|].
  apply orb_false_iff in H as [Hk Hg]. rewrite Hk. now apply IH.
Qed.

(** a modifier whose name is not bound in the module goes to [replace] *)
Lemma dispatch_unbound (md : string) :
  Py.in_names (PyStr.tail md) (map fst globals) = false ->
  dispatch md = GReplace.
Proof. apply globals_get_unbound. Qed.

(** so does the absent modifier *)
Lemma dispatch_absent : dispatch "" = GReplace.
Proof. reflexivity. Qed.

(** C1. A modifier that names no handler is meant to fall back to
    [replace]; the lookup in the module's namespace finds every name bound
    there instead.  On the token [@name!io] the name [io] is bound to the
    imported module, the call of it raises [TypeError] and the compilation
    of the paragraph aborts, where the [replace] handler would have written
    the value. *)
Theorem modifier_naming_module_raises :
  let p := mkParagraph [plain "Hi @name!io"] in
  let data := [("name", VStr "Ann")] in
  Token.findall "Hi @name!io" = [("@name", "!io")]
  /\ dispatch "!io" = GOther
  /\ domp p empty_doc data = Exc TypeError
  /\ replace empty_doc (plain "Hi @name!io") "@name" "!io" data
     = Val (empty_doc, plain "Hi Ann").
Proof. repeat split; reflexivity. Qed.

(* ------------------------------------------------------------------ *)
(** ** The handlers on an unresolved name *)

(** [tbl] on a name the data lacks: the token is erased, nothing else *)
Lemma tbl_unresolved (doc : document) (r : run) (expr md : string)
    (data : namespace) :
  compile_expr expr data = Val (VStr expr) ->
  tbl doc r expr md data
  = Val (doc, set_text r (PyStr.replace (expr ++ md) "" (text r))).
Proof.
  intros H. unfold tbl. rewrite H. cbn [bind Py.truthy].
  destruct expr as [|c e]; [reflexivity|]. reflexivity.
Qed.

(** C2. On a name the data lacks [compile_expr] answers the expression
    text, a non-empty string; [img] takes it for the path of a picture and
    calls [add_picture] with it, where the claim has no picture embedded.
    ([tbl] does skip, see [tbl_unresolved].) *)
Theorem img_unresolved_name_embeds :
  compile_expr "@missing" [] = Val (VStr "@missing")
  /\ img empty_doc (plain "see @missing!img") "@missing" "!img" []
     = Val (empty_doc,
            mkRun "see "
                  [mkPicture (VStr "@missing") (DRaw VNone) (DRaw VNone)] []).
Proof. split; reflexivity. Qed.

(* ------------------------------------------------------------------ *)
(** ** Payloads of another shape *)


(** C4. The test of [tbl] joins its two halves by [and]: a list whose
    rows are not lists passes it, and a value without subscripts fails
    inside it.  Both raise [TypeError], where the claim has a silent
    no-op. *)
Theorem tbl_not_list_shaped_raises :
  Py.truthy (VList [VInt 1; VInt 2]) = true
  /\ tbl empty_doc (plain "@grid!tbl") "@grid" "!tbl"
         [("grid", VList [VInt 1; VInt 2])] = Exc TypeError
  /\ Py.truthy (VInt 5) = true
  /\ tbl empty_doc (plain "@grid!tbl") "@grid" "!tbl" [("grid", VInt 5)]
     = Exc TypeError.
Proof. repeat split; reflexivity. Qed.


(** C5. A tuple is unpacked into three names whatever its length: on a
    pair the unpacking raises [ValueError], where the claim has the value
    ignored without an error. *)
Theorem img_tuple_of_other_arity_raises :
  Py.truthy (VTuple [VStr "a.png"; VInt 10]) = true
  /\ img empty_doc (plain "@photo!img") "@photo" "!img"
         [("photo", VTuple [VStr "a.png"; VInt 10])] = Exc ValueError.
Proof. split; reflexivity. Qed.

(* ------------------------------------------------------------------ *)
(** ** The [replace] handler *)

Lemma append_empty (s : string) : s ++ "" = s.
Proof. induction s; simpl; congruence. Qed.




(** C6. On an unresolved name [compile_expr] answers the expression
    without its modifier, and [replace] writes that in place of expression
    plus modifier: the token [@missing!x], whose modifier names nothing and
    so falls to [replace], is left as [@missing].  The claim has the token
    text, modifier included, still there verbatim. *)
Theorem replace_unresolved_drops_modifier :
  compile_expr "@missing" [] = Val (VStr "@missing")
  /\ dispatch "!x" = GReplace
  /\ domp (mkParagraph [plain "a @missing!x b"]) empty_doc []
     = Val (empty_doc, mkParagraph [plain "a @missing b"]).
Proof. repeat split; reflexivity. Qed.

(* ------------------------------------------------------------------ *)
(** ** Which names an expression sees *)

(** C3. [compile_expr] hands [eval] an empty dictionary of globals to
    keep the expression to the data, and [eval] binds the builtins in it:
    [len], which the data does not bind, is visible and called, and
    [__import__], the way to the whole process, resolves as well, where the
    claim has no name outside the mapping visible. *)
Theorem builtins_visible_to_expression :
  let data := [("rows", VList [VInt 1; VInt 2])] in
  Eval.lookup "len" data = None
  /\ Eval.lookup "__import__" data = None
  /\ compile_expr "@len(rows)" data = Val (VInt 2)
  /\ compile_expr "@len" data = Val (VBuiltin "len")
  /\ compile_expr "@__import__" data = Val (VBuiltin "__import__")
  /\ compile_expr "@missing" data = Val (VStr "@missing").
Proof. repeat split; reflexivity. Qed.

(** the builtins reach whole expressions: a call of [len] on a binding *)
Lemma builtin_call_evaluates :
  compile_expr "@len(rows)" [("rows", VList [VInt 1; VInt 2])]
  = Val (VInt 2).
Proof. reflexivity. Qed.

(* ------------------------------------------------------------------ *)
(** ** Tokens that occur more than once in a run *)










(* ------------------------------------------------------------------ *)
(** ** Paragraphs without a token *)

(** C8. A paragraph whose full text holds no match of the token pattern
    is returned by [domp] as it is, whatever the data: no run is scanned, no
    handler runs, the text of every run and the document are unchanged. *)
Theorem domp_skips_paragraph_without_token
    (p : paragraph) (doc : document) (data : namespace) :
  Token.search (paragraph_text p) = false ->
  domp p doc data = Val (doc, p)
  /\ (forall doc' p', domp p doc data = Val (doc', p') ->
        map text (runs p') = map text (runs p)).
Proof.
  intros H. unfold domp. rewrite H. cbn [negb]. split; [reflexivity|].
  intros doc' p' E. now injection E as _ <-.
Qed.

Lemma domp_skips_paragraph_without_token_witness :
  domp (mkParagraph [plain "Dear "; plain "customer @ {home}!"]) empty_doc
       [("b", VStr "x")]
  = Val (empty_doc, mkParagraph [plain "Dear "; plain "customer @ {home}!"])
  /\ (forall doc' p',
        domp (mkParagraph [plain "Dear "; plain "customer @ {home}!"]) empty_doc
             [("b", VStr "x")] = Val (doc', p') ->
        map text (runs p')
        = map text (runs (mkParagraph [plain "Dear "; plain "customer @ {home}!"]))).
Proof.
  apply (domp_skips_paragraph_without_token
           (mkParagraph [plain "Dear "; plain "customer @ {home}!"]) empty_doc
           [("b", VStr "x")]).
  reflexivity.
Defined.

(* ------------------------------------------------------------------ *)
(** ** The walker: order and reach *)

Open Scope list_scope.

(** the loops of [table_paragraphs] yield the order of the specification *)
Lemma walk_table_order (t : table) : walk_table t = WalkSpec.of_table t.
Proof.
  destruct t as [cols]. cbn [walk_table WalkSpec.of_table].
  induction cols as [|col cols IHcols]; [reflexivity|].
  cbn [flat_map]. rewrite <- IHcols. reflexivity.
Qed.

Lemma table_paragraphs_order (ts : list table) :
  table_paragraphs ts = WalkSpec.of_tables ts.
Proof.
  unfold WalkSpec.of_tables.
  induction ts as [|t ts IH]; [reflexivity|].
  cbn [table_paragraphs flat_map]. now rewrite IH, walk_table_order.
Qed.

(** the paragraphs of the specification's order are the reachable ones *)
Lemma of_table_reachable (p : paragraph) (t : table) :
  In p (WalkSpec.of_table t) <-> WalkSpec.in_table p t.
Proof.
  revert t.
  apply (table_nested_ind
           (fun t => In p (WalkSpec.of_table t) <-> WalkSpec.in_table p t)
           (fun c => In p (WalkSpec.of_cell c) <-> WalkSpec.in_cell p c)).
  - intros cols Hcols. cbn [WalkSpec.of_table].
    rewrite Forall_forall in Hcols. split.
    + intros H. apply in_flat_map in H as (col & Hcol & H).
      apply in_flat_map in H as (c & Hc & H).
      econstructor; [exact Hcol | exact Hc |].
      pose proof (Hcols col Hcol) as F. rewrite Forall_forall in F.
      now apply F.
    + intros H. inversion H as [p' cols' col c Hcol Hc Hp]; subst.
      apply in_flat_map. exists col. split; [exact Hcol|].
      apply in_flat_map. exists c. split; [exact Hc|].
      pose proof (Hcols col Hcol) as F. rewrite Forall_forall in F.
      now apply F.
  - intros ps ts Hts. cbn [WalkSpec.of_cell].
    rewrite Forall_forall in Hts. split.
    + intros H. apply in_app_or in H as [H|H].
      * now apply WalkSpec.in_cell_own.
      * apply in_flat_map in H as (t & Ht & H).
        eapply WalkSpec.in_cell_nested; [exact Ht | now apply Hts].
    + intros H. inversion H; subst; apply in_or_app.
      * now left.
      * right. apply in_flat_map. eexists. split; [eassumption|].
        now apply Hts.
Qed.

Lemma of_tables_reachable (ts : list table) (p : paragraph) :
  In p (WalkSpec.of_tables ts)
  <-> exists t, In t ts /\ WalkSpec.in_table p t.
Proof.
  unfold WalkSpec.of_tables. rewrite in_flat_map.
  split; intros (t & Ht & H); exists t; split; trivial;
    now apply of_table_reachable.
Qed.

Lemma of_block_reachable (b : block) (p : paragraph) :
  In p (blk_paragraphs b ++ WalkSpec.of_tables (blk_tables b))
  <-> WalkSpec.in_block p b.
Proof.
  unfold WalkSpec.in_block. rewrite in_app_iff, of_tables_reachable.
  reflexivity.
Qed.

(** C7. On a document with a first section the walker returns: it yields
    the paragraphs in the six stages of the specification, tables walked
    per table, per column, per cell, a cell's own paragraphs before those of
    its nested tables; and what it yields is exactly what can be reached
    from the body and from the header and footer of that section. *)
Theorem paragraphs_order_and_reach
    (d : document) (s : section) (others : list section) :
  doc_sections d = s :: others ->
  paragraphs d = Val (WalkSpec.order d s)
  /\ (forall p, In p (WalkSpec.order d s) <-> WalkSpec.reachable p d s).
Proof.
  intros Hs. split.
  - unfold paragraphs, WalkSpec.order. rewrite Hs.
    rewrite !table_paragraphs_order. now rewrite <- !app_assoc.
  - intros p. unfold WalkSpec.order, WalkSpec.reachable.
    rewrite in_app_iff, in_app_iff, of_tables_reachable.
    rewrite app_assoc, in_app_iff, !of_block_reachable.
    tauto.
Qed.

Lemma paragraphs_order_and_reach_witness :
  paragraphs nested_document
  = Val (WalkSpec.order nested_document
           (mkSection (mkBlock [mkParagraph [plain "head"]] [])
                      (mkBlock [mkParagraph [plain "foot"]] [])))
  /\ (forall p,
        In p (WalkSpec.order nested_document
                (mkSection (mkBlock [mkParagraph [plain "head"]] [])
                           (mkBlock [mkParagraph [plain "foot"]] [])))
        <-> WalkSpec.reachable p nested_document
              (mkSection (mkBlock [mkParagraph [plain "head"]] [])
                         (mkBlock [mkParagraph [plain "foot"]] []))).
Proof.
  apply (paragraphs_order_and_reach nested_document
           (mkSection (mkBlock [mkParagraph [plain "head"]] [])
                      (mkBlock [mkParagraph [plain "foot"]] [])) []).
  reflexivity.
Defined.

(** columns left to right, cells top to bottom, a cell's own paragraphs
    before those of the table nested in it *)
Example paragraphs_nested_order :
  paragraphs nested_document
  = Val (map (fun s => mkParagraph [plain s])
             ["body"; "a1"; "inner"; "a2"; "b1"; "b2"; "head"; "foot"]).
Proof. reflexivity. Qed.

Example paragraphs_without_section :
  paragraphs (mkDocument [] [] [] []) = Exc IndexError.
Proof. reflexivity. Qed.

(* ------------------------------------------------------------------ *)
(** ** [tbl] on a matrix *)

Lemma set_nth_middle {A : Type} (pre : list A) (x y : A) (post : list A) :
  Docx.set_nth (List.length pre) x (pre ++ y :: post) = pre ++ x :: post.
Proof. induction pre as [|a pre IH]; simpl; congruence. Qed.

Lemma fill_row_cells (cells : list value) :
  forall (t : new_table) (ridx cidx : nat) (pre old post : list string),
    tbl_cells t = pre ++ old ++ post ->
    List.length pre = cidx + ridx * tbl_cols t ->
    List.length old = List.length cells ->
    fill_row t ridx cidx cells
    = Val (with_cells t (pre ++ map Py.str cells ++ post)).
Proof.
  induction cells as [|c cells IH]; intros t ridx cidx pre old post Ht Hp Ho.
  - destruct old; [|discriminate Ho]. cbn in Ht |- *.
    unfold with_cells. rewrite <- Ht. now destruct t.
  - destruct old as [|o old]; [discriminate Ho|].
    cbn [fill_row]. unfold Docx.set_cell.
    rewrite <- Hp, Ht.
    assert (Hlt : Nat.ltb (List.length pre)
                    (List.length (pre ++ (o :: old) ++ post)) = true).
    { apply Nat.ltb_lt. rewrite length_app. simpl. lia. }
    rewrite Hlt. cbn [bind].
    change ((o :: old) ++ post) with (o :: old ++ post).
    rewrite set_nth_middle.
    rewrite (IH _ ridx (S cidx) (pre ++ [Py.str c]) old post).
    + unfold with_cells. cbn. now rewrite <- app_assoc.
    + cbn. now rewrite <- app_assoc.
    + cbn. rewrite length_app. simpl. lia.
    + now injection Ho.
Qed.

Lemma fill_rows_cells (m : list (list value)) :
  forall (t : new_table) (ridx : nat) (pre old post : list string),
    tbl_cells t = pre ++ old ++ post ->
    List.length pre = ridx * tbl_cols t ->
    Forall (fun row => List.length row = tbl_cols t) m ->
    List.length old = List.length m * tbl_cols t ->
    fill_rows t ridx (map VList m)
    = Val (with_cells t (pre ++ flat_map (map Py.str) m ++ post)).
Proof.
  induction m as [|row m IH]; intros t ridx pre old post Ht Hp Hm Ho.
  - destruct old; [|discriminate Ho]. cbn in Ht |- *.
    unfold with_cells. rewrite <- Ht. now destruct t.
  - inversion Hm as [|? ? Hrow Hm']; subst.
    cbn [map fill_rows iterate bind].
    set (C := tbl_cols t) in *.
    assert (Hsplit : old = firstn C old ++ skipn C old)
      by (symmetry; apply firstn_skipn).
    assert (Hfirst : List.length (firstn C old) = C).
    { rewrite length_firstn. cbn in Ho. lia. }
    assert (Hrest : List.length (skipn C old) = List.length m * C).
    { rewrite length_skipn. cbn in Ho. lia. }
    rewrite (fill_row_cells row t ridx 0 pre (firstn C old)
               (skipn C old ++ post)).
    + cbn [bind].
      rewrite (IH _ (S ridx) (pre ++ map Py.str row) (skipn C old) post).
      * unfold with_cells. cbn. now rewrite <- !app_assoc.
      * cbn. now rewrite <- app_assoc.
      * cbn. rewrite length_app, length_map, Hp, Hrow. fold C. lia.
      * exact Hm'.
      * exact Hrest.
    + rewrite Ht. rewrite Hsplit at 1. now rewrite <- app_assoc.
    + fold C. lia.
    + rewrite Hfirst. now symmetry.
Qed.

(** entry [j] of row [i] lands in cell [j + i * columns] *)
Lemma flat_cells_nth (C : nat) (m : list (list value)) :
  Forall (fun row => List.length row = C) m ->
  forall (i j : nat) (row : list value) (v : value),
    nth_error m i = Some row -> nth_error row j = Some v ->
    nth_error (flat_map (map Py.str) m) (j + i * C) = Some (Py.str v).
Proof.
  induction 1 as [|r m Hr Hm IH]; intros i j row v Hi Hj.
  - now destruct i.
  - cbn [flat_map]. destruct i as [|i]; cbn in Hi.
    + injection Hi as ->. rewrite Nat.add_0_r.
      rewrite nth_error_app1
        by (rewrite length_map; apply nth_error_Some; congruence).
      now rewrite nth_error_map, Hj.
    + rewrite nth_error_app2 by (rewrite length_map; lia).
      rewrite length_map, Hr.
      replace (j + S i * C - C) with (j + i * C) by lia.
      eapply IH; eassumption.
Qed.

(** a table that [tbl] had put behind the paragraph would not be among the
    tables behind the run *)
Lemma table_lands_behind_run : ~ table_follows_paragraph.
Proof.
  intros H.
  specialize (H empty_doc empty_doc (plain "@grid!tbl")
                (mkRun "" [] [mkTable 1 1 "Table Grid" ["7"]])
                "@grid" "!tbl" [("grid", VList [VList [VInt 7]])]
                [VInt 7] [] eq_refl (Forall_nil _) eq_refl).
  discriminate H.
Qed.

(** C9, amended. On a non-empty list of lists, all of the length of the
    first, [tbl] erases every occurrence of the token from the text of the
    run and leaves, as the next sibling of the run inside the run's
    paragraph, a new table with as many rows as the matrix and as many
    columns as its first row, in the style [Table Grid], whose cells hold
    the string forms of the entries in row-major order; the run holds no
    picture afterwards and the rest of the document is as it was. *)
Theorem tbl_matrix_inserts_table
    (doc : document) (r : run) (expr md : string) (data : namespace)
    (first : list value) (rest : list (list value)) :
  expr <> "" ->
  compile_expr expr data = Val (VList (map VList (first :: rest))) ->
  Forall (fun row => List.length row = List.length first) rest ->
  let m := first :: rest in
  let t := mkTable (List.length m) (List.length first) "Table Grid"
                   (flat_map (map Py.str) m) in
  (exists erased,
      tbl doc r expr md data
      = Val (doc, mkRun erased [] (t :: following r))
      /\ ReplaceSpec.Replaced (expr ++ md) "" (text r) erased)
  /\ (forall i j row v,
        nth_error m i = Some row -> nth_error row j = Some v ->
        nth_error (tbl_cells t) (j + i * tbl_cols t) = Some (Py.str v)).
Proof.
  intros Hne Hv Hrect m t. split.
  - exists (PyStr.replace (expr ++ md) "" (text r)). split.
    + unfold tbl. rewrite Hv. cbn -[flat_map fill_rows Nat.mul].
      rewrite length_map.
      change (VList first :: map VList rest) with (map VList m).
      unfold Docx.set_style. cbn [tbl_rows tbl_cols tbl_cells].
      set (t0 := mkTable (S (List.length rest)) (List.length first)
                         "Table Grid"
                         (repeat "" (S (List.length rest)
                                     * List.length first))).
      rewrite (fill_rows_cells m t0 0 [] (tbl_cells t0) []).
      * cbn [bind]. unfold Docx.addnext. f_equal. f_equal.
        -- unfold with_appended. cbn. rewrite removelast_last.
           now destruct doc.
        -- unfold set_text, with_cells. cbn -[flat_map].
           now rewrite app_nil_r.
      * cbn [app]. now rewrite app_nil_r.
      * reflexivity.
      * subst m. constructor; [reflexivity | exact Hrect].
      * subst t0 m. cbn [tbl_cells tbl_cols]. rewrite repeat_length.
        reflexivity.
    + apply replace_Replaced. destruct expr; [now elim Hne | discriminate].
  - intros i j row v Hi Hj. cbn [tbl_cells tbl_cols t].
    eapply flat_cells_nth; try eassumption.
    subst m. constructor; [reflexivity | exact Hrect].
Qed.

Lemma tbl_matrix_inserts_table_witness :
  let m := [VInt 1; VInt 2] :: [[VInt 3; VInt 4]] in
  let t := mkTable (List.length m) (List.length [VInt 1; VInt 2])
                   "Table Grid" (flat_map (map Py.str) m) in
  (exists erased,
      tbl empty_doc (plain "see @grid!tbl") "@grid" "!tbl"
          [("grid", VList [VList [VInt 1; VInt 2]; VList [VInt 3; VInt 4]])]
      = Val (empty_doc,
             mkRun erased [] (t :: following (plain "see @grid!tbl")))
      /\ ReplaceSpec.Replaced ("@grid" ++ "!tbl") ""
           (text (plain "see @grid!tbl")) erased)
  /\ (forall i j row v,
        nth_error m i = Some row -> nth_error row j = Some v ->
        nth_error (tbl_cells t) (j + i * tbl_cols t) = Some (Py.str v)).
Proof.
  apply (tbl_matrix_inserts_table empty_doc (plain "see @grid!tbl") "@grid"
           "!tbl"
           [("grid", VList [VList [VInt 1; VInt 2]; VList [VInt 3; VInt 4]])]
           [VInt 1; VInt 2] [[VInt 3; VInt 4]]).
  - discriminate.
  - reflexivity.
  - repeat constructor.
Defined.

Open Scope string_scope.

(* ------------------------------------------------------------------ *)
(** ** The token pattern: where a token starts and what it holds *)

Lemma string_app_assoc (a b c : string) : (a ++ b) ++ c = a ++ b ++ c.
Proof. induction a; simpl; congruence. Qed.

Lemma span_spec (p : ascii -> bool) (s a b : string) :
  PyStr.span p s = (a, b) ->
  s = a ++ b /\ Parse.all_chars p a = true.
Proof.
  revert a b. induction s as [|c s IH]; intros a b H; cbn in H.
  - injection H as <- <-. now split.
  - destruct (p c) eqn:Hc.
    + destruct (PyStr.span p s) as [a' b'] eqn:Hs.
      injection H as <- <-. destruct (IH _ _ eq_refl) as [-> Ha].
      split; [reflexivity|]. cbn. now rewrite Hc.
    + injection H as <- <-. now split.
Qed.

Lemma span_head (p : ascii -> bool) (c : ascii) (s : string) :
  p c = true ->
  exists a b, PyStr.span p (String c s) = (String c a, b).
Proof.
  intros Hc. cbn. rewrite Hc.
  destruct (PyStr.span p s) as [a b]. now exists a, b.
Qed.

Lemma opt_char_spec (c : ascii) (s o r : string) :
  Token.opt_char c s = (o, r) ->
  s = o ++ r /\ (o = "" \/ o = String c "").
Proof.
  unfold Token.opt_char. destruct s as [|d s].
  - intros H. injection H as <- <-. now split; [|left].
  - destruct (Ascii.eqb_spec c d) as [->|_]; intros H; injection H as <- <-.
    + split; [reflexivity | now right].
    + split; [reflexivity | now left].
Qed.

Lemma match_mod_spec (s : string) :
  (exists r, s = Token.match_mod s ++ r)
  /\ (Token.match_mod s = ""
      \/ exists letters, Token.match_mod s = String "!" letters
                         /\ letters <> ""
                         /\ Parse.all_chars PyStr.is_lower letters = true).
Proof.
  unfold Token.match_mod. destruct s as [|c s]; [split; [now exists ""|now left]|].
  destruct (Ascii.eqb_spec c "!") as [->|Hc].
  - cbn. destruct (PyStr.span PyStr.is_lower s) as [a b] eqn:Hs.
    destruct (span_spec _ _ _ _ Hs) as [-> Ha]. cbn [fst].
    destruct a as [|l a]; [split; [now eexists | now left]|].
    split; [now exists b|]. right. exists (String l a).
    repeat split; [discriminate | exact Ha].
  - split; [exists (String c s) | left];
      destruct c as [[] [] [] [] [] [] [] []]; try reflexivity; now elim Hc.
Qed.

(** the anatomy of a match: the at sign, an optional opening brace, a
    non-empty body of body characters, an optional closing brace; the second
    group is the modifier read behind it *)
Lemma match_at_spec (s e m : string) :
  Token.match_at s = Some (e, m) ->
  exists o body c r,
    e = String "@" (o ++ body ++ c)
    /\ (o = "" \/ o = "{") /\ (c = "" \/ c = "}")
    /\ body <> "" /\ Parse.all_chars Token.is_body body = true
    /\ s = e ++ r /\ m = Token.match_mod r.
Proof.
  unfold Token.match_at. intros H.
  destruct s as [|a s]; [discriminate|].
  destruct (Ascii.eqb_spec a "@") as [->|Ha].
  - cbn in H. destruct (Token.opt_char "{" s) as [o s2] eqn:Ho.
    destruct (PyStr.span Token.is_body s2) as [body s3] eqn:Hb.
    destruct body as [|b body]; [discriminate|].
    destruct (Token.opt_char "}" s3) as [c s4] eqn:Hc.
    injection H as <- <-.
    destruct (opt_char_spec _ _ _ _ Ho) as [-> Ho'].
    destruct (span_spec _ _ _ _ Hb) as [-> Hb'].
    destruct (opt_char_spec _ _ _ _ Hc) as [-> Hc'].
    exists o, (String b body), c, s4.
    repeat split; try assumption; try discriminate.
    cbn. f_equal.
    change (String b (body ++ c ++ s4)) with (String b body ++ c ++ s4).
    change (String b (body ++ c)) with (String b body ++ c).
    now rewrite !string_app_assoc.
  - exfalso. destruct a as [[] [] [] [] [] [] [] []]; try discriminate H.
    now elim Ha.
Qed.

Lemma is_body_not_brace (c : ascii) :
  Token.is_body c = true -> c <> "{"%char /\ c <> "@"%char.
Proof. intros H; split; intros ->; discriminate H. Qed.

Lemma match_at_starts (s : string) :
  Token.match_at s <> None
  <-> exists c rest,
        Token.is_body c = true
        /\ (s = String "@" (String c rest)
            \/ s = String "@" (String "{" (String c rest))).
Proof.
  split.
  - destruct (Token.match_at s) as [[e m]|] eqn:H; [intros _ | now intros []].
    destruct (match_at_spec _ _ _ H)
      as (o & body & c & r & -> & Ho & _ & Hne & Hb & -> & _).
    destruct body as [|b body]; [now elim Hne|].
    cbn in Hb. apply andb_true_iff in Hb as [Hb _].
    exists b, ((body ++ c) ++ r). split; [exact Hb|].
    destruct Ho as [->| ->]; [left | right]; reflexivity.
  - intros (c & rest & Hc & [-> | ->]).
    + destruct (is_body_not_brace _ Hc) as [Hbrace _].
      assert (Ho : Token.opt_char "{" (String c rest) = ("", String c rest)).
      { unfold Token.opt_char.
        destruct (Ascii.eqb_spec "{" c) as [E|_]; [now elim Hbrace | easy]. }
      cbn [Token.match_at]. rewrite Ho.
      destruct (span_head Token.is_body c rest Hc) as (a & b & ->).
      destruct (Token.opt_char "}" b). discriminate.
    + cbn [Token.match_at].
      change (Token.opt_char "{" (String "{" (String c rest)))
        with ("{", String c rest).
      destruct (span_head Token.is_body c rest Hc) as (a & b & ->).
      destruct (Token.opt_char "}" b). discriminate.
Qed.

Lemma match_at_extends (s t : string) :
  Token.match_at s <> None -> Token.match_at (s ++ t) <> None.
Proof.
  rewrite !match_at_starts. intros (c & rest & Hc & [-> | ->]);
    exists c, (rest ++ t); (split; [exact Hc|]); [left | right]; reflexivity.
Qed.

Lemma search_iff (s : string) :
  Token.search s = true
  <-> exists a b, s = a ++ b /\ Token.match_at b <> None.
Proof.
  induction s as [|c s IH].
  - split; [discriminate|]. intros (a & b & E & H).
    destruct a; [|discriminate E]. cbn in E. subst b. now elim H.
  - cbn [Token.search].
    destruct (Token.match_at (String c s)) as [x|] eqn:Hm.
    + split; [intros _ | reflexivity].
      exists "", (String c s). split; [reflexivity | congruence].
    + rewrite IH. split.
      * intros (a & b & -> & H). now exists (String c a), b.
      * intros (a & b & E & H). destruct a as [|d a].
        -- cbn in E. subst b. now elim H.
        -- injection E as <- ->. now exists a, b.
Qed.

(** X1. [token.search] finds a match exactly in a text that holds an at
    sign followed by a body character, with or without an opening brace
    between the two: an address like [a@b.c] holds the token [@b.c], a lone
    at sign or an empty pair of braces holds none. *)
Theorem token_starts_at (s : string) :
  Token.search s = true
  <-> exists a c rest,
        Token.is_body c = true
        /\ (s = a ++ String "@" (String c rest)
            \/ s = a ++ String "@" (String "{" (String c rest))).
Proof.
  rewrite search_iff. split.
  - intros (a & b & -> & H). apply match_at_starts in H.
    destruct H as (c & rest & Hc & H). exists a, c, rest.
    split; [exact Hc|]. destruct H as [-> | ->]; [now left | now right].
  - intros (a & c & rest & Hc & H).
    destruct H as [-> | ->]; eexists a, _; (split; [reflexivity|]);
      apply match_at_starts; exists c, rest; (split; [exact Hc|]);
      [now left | now right].
Qed.

Lemma search_in_context (a s b : string) :
  Token.search s = true -> Token.search (a ++ s ++ b) = true.
Proof.
  rewrite !search_iff. intros (x & y & -> & H).
  exists (a ++ x), (y ++ b). split.
  - now rewrite !string_app_assoc.
  - now apply match_at_extends.
Qed.

Lemma findall_go_search (k : nat) (s : string) :
  Token.findall_go k s <> [] -> Token.search s = true.
Proof.
  revert k. induction s as [|c s IH]; intros k H; [now elim H|].
  cbn [Token.findall_go] in H. cbn [Token.search].
  destruct (Token.match_at (String c s)) as [[e m]|]; [reflexivity|].
  destruct k; eapply IH; eassumption.
Qed.

Lemma paragraph_text_split (rs : list run) (r : run) :
  In r rs ->
  exists a b, fold_right (fun r acc => text r ++ acc) "" rs
              = a ++ text r ++ b.
Proof.
  induction rs as [|r0 rs IH]; intros H; [contradiction|].
  destruct H as [->|H].
  - now exists "", (fold_right (fun r acc => text r ++ acc) "" rs).
  - destruct (IH H) as (a & b & E). exists (text r0 ++ a), b.
    cbn [fold_right]. now rewrite E, string_app_assoc.
Qed.

Lemma domp_runs_no_tokens (doc : document) (rs : list run)
    (data : namespace) :
  (forall r, In r rs -> Token.findall (text r) = []) ->
  domp_runs doc rs data = Val (doc, rs).
Proof.
  induction rs as [|r rs IH]; intros H; [reflexivity|].
  cbn [domp_runs]. rewrite (H r (or_introl eq_refl)). cbn [run_tokens bind].
  rewrite IH; [reflexivity|]. intros r' Hr'. apply H. now right.
Qed.

(** X2. The test on the paragraph text only saves work.  When the whole
    text of a paragraph holds no match, no run of it holds one, and the
    loop over the runs, had it been entered, would have returned the
    document and the runs as they are. *)
Theorem paragraph_test_skips_nothing
    (p : paragraph) (doc : document) (data : namespace) :
  Token.search (paragraph_text p) = false ->
  (forall r, In r (runs p) -> Token.findall (text r) = [])
  /\ domp_runs doc (runs p) data = Val (doc, runs p).
Proof.
  intros Hs.
  assert (H : forall r, In r (runs p) -> Token.findall (text r) = []).
  { intros r Hr. destruct (Token.findall (text r)) as [|x l] eqn:Hf;
      [reflexivity|]. exfalso.
    assert (Ht : Token.search (text r) = true).
    { apply (findall_go_search 0). unfold Token.findall in Hf.
      rewrite Hf. discriminate. }
    destruct (paragraph_text_split _ _ Hr) as (a & b & E).
    unfold paragraph_text in Hs. rewrite E in Hs.
    now rewrite (search_in_context a _ b Ht) in Hs. }
  split; [exact H | now apply domp_runs_no_tokens].
Qed.

Lemma paragraph_test_skips_nothing_witness :
  (forall r, In r (runs (mkParagraph [plain "to: "; plain "you @ home"])) ->
             Token.findall (text r) = [])
  /\ domp_runs empty_doc (runs (mkParagraph [plain "to: "; plain "you @ home"]))
       [("home", VStr "x")]
     = Val (empty_doc, runs (mkParagraph [plain "to: "; plain "you @ home"])).
Proof.
  apply (paragraph_test_skips_nothing
           (mkParagraph [plain "to: "; plain "you @ home"]) empty_doc
           [("home", VStr "x")]).
  reflexivity.
Defined.

(* ------------------------------------------------------------------ *)
(** ** The tokens a scan finds *)

Lemma occurs_cons (t s : string) (c : ascii) :
  PyStr.occurs t s = true -> PyStr.occurs t (String c s) = true.
Proof. intros H. cbn [PyStr.occurs]. rewrite H. apply orb_true_r. Qed.

Lemma occurs_prefix (t s : string) :
  prefix t s = true -> PyStr.occurs t s = true.
Proof. intros H. destruct s; cbn [PyStr.occurs]; now rewrite H. Qed.

(** X3. Every pair the scan of a text finds is a piece of that text: the
    expression begins with the at sign, the modifier is empty or an
    exclamation mark and lower-case letters, and expression plus modifier,
    the text the handlers replace, occurs in the text scanned. *)
Theorem found_token_occurs (s e m : string) :
  In (e, m) (Token.findall s) ->
  PyStr.occurs (e ++ m) s = true
  /\ (exists rest, e = String "@" rest)
  /\ (m = ""
      \/ exists letters, m = String "!" letters /\ letters <> ""
                         /\ Parse.all_chars PyStr.is_lower letters = true).
Proof.
  unfold Token.findall. generalize 0 as k.
  induction s as [|c s IH]; intros k H; [contradiction|].
  cbn [Token.findall_go] in H.
  assert (Hrec : forall k', In (e, m) (Token.findall_go k' s) ->
                 PyStr.occurs (e ++ m) (String c s) = true
                 /\ (exists rest, e = String "@" rest)
                 /\ (m = ""
                     \/ exists letters, m = String "!" letters
                          /\ letters <> ""
                          /\ Parse.all_chars PyStr.is_lower letters = true)).
  { intros k' H'. destruct (IH _ H') as (Ho & He & Hm).
    split; [now apply occurs_cons | now split]. }
  destruct k as [|k]; [|now apply (Hrec k)].
  destruct (Token.match_at (String c s)) as [[e' m']|] eqn:Hm;
    [|now apply (Hrec 0)].
  destruct H as [H|H]; [|now apply (Hrec _ H)].
  injection H as -> ->.
  destruct (match_at_spec _ _ _ Hm)
    as (o & body & cl & r & He & _ & _ & _ & _ & Hs & Hmod).
  destruct (match_mod_spec r) as [[r' Hr] Hshape]. rewrite <- Hmod in *.
  repeat split.
  - apply occurs_prefix. rewrite Hs, Hr.
    rewrite <- string_app_assoc. apply prefix_append.
  - rewrite He. now eexists.
  - exact Hshape.
Qed.

Lemma found_token_occurs_witness :
  PyStr.occurs ("@qr" ++ "!img") "stamp @qr!img here" = true
  /\ (exists rest, "@qr" = String "@" rest)
  /\ ("!img" = ""
      \/ exists letters, "!img" = String "!" letters /\ letters <> ""
                         /\ Parse.all_chars PyStr.is_lower letters = true).
Proof.
  apply (found_token_occurs "stamp @qr!img here" "@qr" "!img").
  cbn. now left.
Defined.

Lemma findall_go_match (k : nat) (s e m : string) :
  In (e, m) (Token.findall_go k s) ->
  exists s', Token.match_at s' = Some (e, m).
Proof.
  revert k. induction s as [|c s IH]; intros k H; [contradiction|].
  cbn [Token.findall_go] in H. destruct k as [|k]; [|now apply IH in H].
  destruct (Token.match_at (String c s)) as [[e' m']|] eqn:Hm;
    [|now apply IH in H].
  destruct H as [H|H]; [|now apply IH in H].
  injection H as -> ->. now exists (String c s).
Qed.

Lemma dispatch_lower (n : string) :
  Parse.all_chars PyStr.is_lower n = true ->
  globals_get n globals GReplace
  = if Py.in_names n crashing_modifiers then GOther
    else if String.eqb n "img" then GImg
    else if String.eqb n "tbl" then GTbl
    else GReplace.
Proof.
  intros Hlow. unfold globals, crashing_modifiers, Py.in_names.
  cbn [globals_get existsb].
  repeat (match goal with
          | |- context [String.eqb n ?k] =>
              destruct (String.eqb_spec n k) as [->|?]
          end; [first [discriminate Hlow | reflexivity]|]).
  reflexivity.
Qed.

(** X4. For the tokens a scan can find the handler is read off the
    modifier alone: the six names of the module that a modifier can spell
    and that are no handlers, [io], [re], [partial], [paragraphs], [domp]
    and [compile], are called and raise [TypeError]; [!img] and [!tbl]
    reach their handlers; every other modifier, and none, reaches
    [replace]. *)
Theorem found_token_dispatch (s e m : string) (doc : document) (r : run)
    (data : namespace) :
  In (e, m) (Token.findall s) ->
  dispatch m
  = (if Py.in_names (PyStr.tail m) crashing_modifiers then GOther
     else if String.eqb (PyStr.tail m) "img" then GImg
     else if String.eqb (PyStr.tail m) "tbl" then GTbl
     else GReplace)
  /\ (In (PyStr.tail m) crashing_modifiers ->
      call_global (dispatch m) doc r e m data = Exc TypeError).
Proof.
  intros H. destruct (findall_go_match _ _ _ _ H) as [s' Hs'].
  destruct (match_at_spec _ _ _ Hs')
    as (_ & _ & _ & r0 & _ & _ & _ & _ & _ & _ & Hr0).
  assert (Hm : m = ""
               \/ exists letters, m = String "!" letters /\ letters <> ""
                    /\ Parse.all_chars PyStr.is_lower letters = true)
    by (rewrite Hr0; apply match_mod_spec).
  assert (Htable : dispatch m
                   = (if Py.in_names (PyStr.tail m) crashing_modifiers
                      then GOther
                      else if String.eqb (PyStr.tail m) "img" then GImg
                      else if String.eqb (PyStr.tail m) "tbl" then GTbl
                      else GReplace)).
  { destruct Hm as [->|(letters & -> & _ & Hlow)]; [reflexivity|].
    now apply dispatch_lower. }
  split; [exact Htable|]. intros Hin. rewrite Htable.
  assert (E : Py.in_names (PyStr.tail m) crashing_modifiers = true).
  { apply existsb_exists. exists (PyStr.tail m). split; [exact Hin|].
    apply String.eqb_refl. }
  now rewrite E.
Qed.

Lemma found_token_dispatch_witness :
  dispatch "!domp"
  = (if Py.in_names (PyStr.tail "!domp") crashing_modifiers then GOther
     else if String.eqb (PyStr.tail "!domp") "img" then GImg
     else if String.eqb (PyStr.tail "!domp") "tbl" then GTbl
     else GReplace)
  /\ (In (PyStr.tail "!domp") crashing_modifiers ->
      call_global (dispatch "!domp") empty_doc (plain "@x!domp") "@x" "!domp"
        [] = Exc TypeError).
Proof.
  apply (found_token_dispatch "@x!domp" "@x" "!domp" empty_doc
           (plain "@x!domp") []).
  cbn. now left.
Defined.

(* ------------------------------------------------------------------ *)
(** ** An unresolved name never aborts a compilation *)

Lemma nne_bind {A B : Type} (m : res A) (f : A -> res B) :
  no_name_error m -> (forall a, no_name_error (f a)) ->
  no_name_error (bind m f).
Proof.
  unfold no_name_error. intros Hm Hf. destruct m as [a|e]; cbn; [apply Hf|].
  intros E. apply Hm. now injection E as ->.
Qed.

Ltac nne_step :=
  match goal with
  | |- no_name_error (bind _ _) => apply nne_bind; [|intros]
  | |- no_name_error (Val _) => discriminate
  | |- no_name_error (Exc _) => discriminate
  | |- no_name_error (if ?b then _ else _) => destruct b
  | |- no_name_error (match ?x with _ => _ end) => destruct x
  end.

Ltac nne := repeat nne_step; try assumption.

Lemma nne_compile_expr (expr : string) (data : namespace) :
  no_name_error (compile_expr expr data).
Proof.
  unfold compile_expr.
  destruct (Eval.eval _ [] data) as [v|[]]; discriminate.
Qed.

Lemma nne_seq_item {A : Type} (l : list A) (i : value) :
  no_name_error (Eval.seq_item l i).
Proof. unfold Eval.seq_item. nne. Qed.

Lemma nne_dict_get (k : key) (d : list (key * value)) :
  no_name_error (Eval.dict_get k d).
Proof.
  induction d as [|[k' v] d IH]; cbn; [discriminate|].
  destruct (Py.key_eqb k k'); [discriminate | exact IH].
Qed.

Lemma nne_subscript (c i : value) : no_name_error (Eval.subscript c i).
Proof.
  unfold Eval.subscript.
  destruct c; try discriminate; try apply nne_seq_item.
  - apply nne_bind; [apply nne_seq_item | discriminate].
  - destruct i; try apply nne_dict_get; nne.
  - nne.
Qed.

Lemma nne_len (v : value) : no_name_error (Eval.len v).
Proof. destruct v; discriminate. Qed.

Lemma nne_iterate (v : value) : no_name_error (iterate v).
Proof. destruct v; discriminate. Qed.

Lemma nne_and_Mm (v : value) : no_name_error (Docx.and_Mm v).
Proof.
  unfold Docx.and_Mm. destruct (Py.truthy v); [|discriminate].
  apply nne_bind; [destruct v; try discriminate; now destruct b | discriminate].
Qed.

Lemma nne_fill_row (cells : list value) :
  forall t ridx cidx, no_name_error (fill_row t ridx cidx cells).
Proof.
  induction cells as [|c cells IH]; intros t ridx cidx; cbn [fill_row];
    [discriminate|].
  apply nne_bind; [|intros; apply IH].
  unfold Docx.set_cell. nne.
Qed.

Lemma nne_fill_rows (rows : list value) :
  forall t ridx, no_name_error (fill_rows t ridx rows).
Proof.
  induction rows as [|row rows IH]; intros t ridx; cbn [fill_rows];
    [discriminate|].
  apply nne_bind; [apply nne_iterate|]. intros cells.
  apply nne_bind; [apply nne_fill_row | intros; apply IH].
Qed.

Lemma nne_handler (g : global) (doc : document) (r : run) (expr md : string)
    (data : namespace) :
  no_name_error (call_global g doc r expr md data).
Proof.
  destruct g; cbn [call_global]; [| | |discriminate].
  - unfold replace. apply nne_bind; [apply nne_compile_expr | discriminate].
  - unfold img, embed. apply nne_bind; [apply nne_compile_expr|].
    intros picture. destruct (Py.truthy picture); [|discriminate].
    destruct (Py.isinstance_str picture).
    + repeat (apply nne_bind; [apply nne_and_Mm | intros]). discriminate.
    + destruct picture as [| | | |[|p [|w [|h [|x l]]]]| | |];
        try discriminate.
      repeat (apply nne_bind; [apply nne_and_Mm | intros]). discriminate.
  - unfold tbl. apply nne_bind; [apply nne_compile_expr|].
    intros matrix. destruct (Py.truthy matrix); [|discriminate].
    apply nne_bind.
    + destruct (negb (Py.isinstance_list matrix)); [|discriminate].
      apply nne_bind; [apply nne_subscript | discriminate].
    + intros [|]; [discriminate|].
      apply nne_bind; [apply nne_len | intros].
      apply nne_bind; [apply nne_subscript | intros].
      apply nne_bind; [apply nne_len | intros].
      cbn. apply nne_bind; [apply nne_iterate | intros].
      apply nne_bind; [apply nne_fill_rows | discriminate].
Qed.

Lemma nne_run_tokens (tokens : list (string * string)) :
  forall doc r data, no_name_error (run_tokens doc r tokens data).
Proof.
  induction tokens as [|[e m] tokens IH]; intros doc r data;
    cbn [run_tokens]; [discriminate|].
  apply nne_bind; [apply nne_handler|]. intros [doc' r']. apply IH.
Qed.

Lemma nne_domp_runs (items : list run) :
  forall doc data, no_name_error (domp_runs doc items data).
Proof.
  induction items as [|item items IH]; intros doc data; cbn [domp_runs];
    [discriminate|].
  apply nne_bind; [apply nne_run_tokens|]. intros [doc1 item'].
  apply nne_bind; [apply IH|]. intros [doc2 rest]. discriminate.
Qed.

(** [NameError] is the one exception [compile_expr] catches, and nothing
    else in the handlers raises it *)
Lemma nne_domp
    (p : paragraph) (doc : document) (data : namespace) :
  domp p doc data <> Exc NameError.
Proof.
  unfold domp. destruct (negb (Token.search (paragraph_text p)));
    [discriminate|].
  apply (nne_bind (domp_runs doc (runs p) data)); [apply nne_domp_runs|].
  intros [doc' items]. discriminate.
Qed.

(* ------------------------------------------------------------------ *)
(** ** What a successful [domp] leaves alone *)

Open Scope list_scope.

Lemma add_then_move (doc : document) (t0 : new_table) :
  with_appended (with_appended doc (appended doc ++ [t0]))
    (removelast (appended (with_appended doc (appended doc ++ [t0]))))
  = doc.
Proof.
  unfold with_appended. cbn. rewrite removelast_last. now destruct doc.
Qed.

Lemma tbl_frame (doc doc' : document) (r r' : run) (expr md : string)
    (data : namespace) :
  tbl doc r expr md data = Val (doc', r') ->
  doc' = doc /\ exists new, following r' = new ++ following r.
Proof.
  unfold tbl. intros H.
  destruct (compile_expr expr data) as [matrix|]; [|discriminate H].
  cbn [bind] in H.
  destruct (Py.truthy matrix);
    [|injection H as <- <-; split; [reflexivity | now exists []]].
  match type of H with bind ?m _ = _ => destruct m as [[]|] end;
    cbn [bind] in H; try discriminate H.
  - injection H as <- <-; split; [reflexivity | now exists []].
  - repeat (match type of H with bind ?m _ = _ => destruct m end;
            cbn [bind] in H; try discriminate H).
    cbn [Docx.add_table] in H.
    repeat (match type of H with bind ?m _ = _ => destruct m end;
            cbn [bind] in H; try discriminate H).
    unfold Docx.addnext in H. injection H as <- <-.
    split; [apply add_then_move|]. now eexists [_].
Qed.

Lemma img_frame (doc doc' : document) (r r' : run) (expr md : string)
    (data : namespace) :
  img doc r expr md data = Val (doc', r') ->
  doc' = doc /\ following r' = following r.
Proof.
  unfold img, embed. intros H. break_res H;
    injection H as <- <-; split; reflexivity.
Qed.

Lemma handler_frame (g : global) (doc doc' : document) (r r' : run)
    (expr md : string) (data : namespace) :
  call_global g doc r expr md data = Val (doc', r') ->
  doc' = doc /\ exists new, following r' = new ++ following r.
Proof.
  destruct g; cbn [call_global]; intros H.
  - unfold replace in H. destruct (compile_expr expr data); [|discriminate H].
    injection H as <- <-. split; [reflexivity | now exists []].
  - destruct (img_frame _ _ _ _ _ _ _ H) as [-> E].
    split; [reflexivity | now exists []].
  - eapply tbl_frame; eassumption.
  - discriminate H.
Qed.

Lemma run_tokens_frame (tokens : list (string * string)) :
  forall (doc doc' : document) (r r' : run) (data : namespace),
    run_tokens doc r tokens data = Val (doc', r') ->
    doc' = doc /\ exists new, following r' = new ++ following r.
Proof.
  induction tokens as [|[e m] tokens IH]; intros doc doc' r r' data H;
    cbn [run_tokens] in H.
  - injection H as <- <-. split; [reflexivity | now exists []].
  - destruct (call_global (dispatch m) doc r e m data) as [[d1 r1]|] eqn:Hc;
      [|discriminate H]. cbn [bind] in H.
    destruct (handler_frame _ _ _ _ _ _ _ _ Hc) as [-> [n1 E1]].
    destruct (IH _ _ _ _ _ H) as [-> [n2 E2]].
    split; [reflexivity|]. exists (n2 ++ n1).
    now rewrite E2, E1, app_assoc.
Qed.

Lemma domp_runs_frame (items : list run) :
  forall (doc doc' : document) (items' : list run) (data : namespace),
    domp_runs doc items data = Val (doc', items') ->
    doc' = doc
    /\ Forall2 (fun r r' => exists new, following r' = new ++ following r)
         items items'.
Proof.
  induction items as [|item items IH]; intros doc doc' items' data H;
    cbn [domp_runs] in H.
  - injection H as <- <-. now split.
  - destruct (run_tokens doc item _ data) as [[d1 i1]|] eqn:Hr;
      [|discriminate H]. cbn [bind] in H.
    destruct (domp_runs d1 items data) as [[d2 rest]|] eqn:Hd;
      [|discriminate H]. cbn [bind] in H. injection H as <- <-.
    destruct (run_tokens_frame _ _ _ _ _ _ Hr) as [-> Hf].
    destruct (IH _ _ _ _ Hd) as [-> Hrest].
    split; [reflexivity | now constructor].
Qed.

(** X5. When [domp] returns, the document body is as it was (the table
    [add_table] appended has been moved behind its run), the paragraph has
    the same runs in the same order, and every run still has behind it the
    tables it had, any new ones in front of them. *)
Theorem domp_success_frame
    (p p' : paragraph) (doc doc' : document) (data : namespace) :
  domp p doc data = Val (doc', p') ->
  doc' = doc
  /\ List.length (runs p') = List.length (runs p)
  /\ Forall2 (fun r r' => exists new, following r' = new ++ following r)
       (runs p) (runs p').
Proof.
  unfold domp. intros H.
  destruct (negb (Token.search (paragraph_text p))).
  - injection H as <- <-. repeat split.
    induction (runs p); constructor; [now exists [] | assumption].
  - destruct (domp_runs doc (runs p) data) as [[d1 items]|] eqn:Hd;
      [|discriminate H]. cbn [bind] in H. injection H as <- <-.
    destruct (domp_runs_frame _ _ _ _ _ Hd) as [-> HF].
    repeat split; [|exact HF]. cbn [runs].
    symmetry. eapply Forall2_length. exact HF.
Qed.

Lemma domp_success_frame_witness :
  empty_doc = empty_doc
  /\ List.length
       (runs (mkParagraph
                [mkRun "" [] [mkTable 1 1 "Table Grid" ["7"]]; plain "Ann"]))
     = List.length (runs (mkParagraph [plain "@g!tbl"; plain "@n"]))
  /\ Forall2 (fun r r' => exists new, following r' = new ++ following r)
       (runs (mkParagraph [plain "@g!tbl"; plain "@n"]))
       (runs (mkParagraph
                [mkRun "" [] [mkTable 1 1 "Table Grid" ["7"]]; plain "Ann"])).
Proof.
  apply (domp_success_frame
           (mkParagraph [plain "@g!tbl"; plain "@n"])
           (mkParagraph
              [mkRun "" [] [mkTable 1 1 "Table Grid" ["7"]]; plain "Ann"])
           empty_doc empty_doc
           [("g", VList [VList [VInt 7]]); ("n", VStr "Ann")]).
  reflexivity.
Defined.

(* ------------------------------------------------------------------ *)
(** ** The main loop *)

Lemma domp_all_app (a b : list paragraph) :
  forall (doc : document) (data : namespace),
    domp_all doc (a ++ b) data
    = ('(d1, x) <- domp_all doc a data ;;
       '(d2, y) <- domp_all d1 b data ;;
       Val (d2, x ++ y)).
Proof.
  induction a as [|p a IH]; intros doc data.
  - cbn. now destruct (domp_all doc b data) as [[d y]|].
  - cbn [app domp_all].
    destruct (domp p doc data) as [[d1 p']|]; [|reflexivity]. cbn [bind].
    rewrite IH.
    destruct (domp_all d1 a data) as [[d2 x]|]; [|reflexivity]. cbn [bind].
    now destruct (domp_all d2 b data) as [[d3 y]|].
Qed.

Lemma domp_doc_runs
    (p p' : paragraph) (doc doc' : document) (data : namespace) :
  domp p doc data = Val (doc', p') ->
  doc' = doc /\ List.length (runs p') = List.length (runs p).
Proof.
  unfold domp. intros H.
  destruct (negb (Token.search (paragraph_text p))).
  - injection H as <- <-. now split.
  - destruct (domp_runs doc (runs p) data) as [[d1 items]|] eqn:Hd;
      [|discriminate H]. cbn [bind] in H. injection H as <- <-.
    destruct (domp_runs_frame _ _ _ _ _ Hd) as [-> HF].
    split; [reflexivity|]. cbn [runs].
    symmetry. eapply Forall2_length. exact HF.
Qed.

Lemma domp_all_frame (ps : list paragraph) :
  forall (doc doc' : document) (ps' : list paragraph) (data : namespace),
    domp_all doc ps data = Val (doc', ps') ->
    doc' = doc
    /\ Forall2 (fun p p' => List.length (runs p') = List.length (runs p))
         ps ps'.
Proof.
  induction ps as [|p ps IH]; intros doc doc' ps' data H;
    cbn [domp_all] in H.
  - injection H as <- <-. now split.
  - destruct (domp p doc data) as [[d1 p1]|] eqn:Hp; [|discriminate H].
    cbn [bind] in H.
    destruct (domp_all d1 ps data) as [[d2 rest]|] eqn:Hr; [|discriminate H].
    cbn [bind] in H. injection H as <- <-.
    destruct (domp_doc_runs _ _ _ _ _ Hp) as (-> & Hl).
    destruct (IH _ _ _ _ Hr) as [-> HF].
    split; [reflexivity | now constructor].
Qed.

Lemma domp_all_no_tokens (ps : list paragraph) (doc : document)
    (data : namespace) :
  Forall (fun p => Token.search (paragraph_text p) = false) ps ->
  domp_all doc ps data = Val (doc, ps).
Proof.
  induction 1 as [|p ps Hp _ IH]; [reflexivity|].
  cbn [domp_all]. unfold domp at 1. rewrite Hp. cbn [negb bind].
  now rewrite IH.
Qed.

Lemma compile_loop_eager
    (d : document) (ps : list paragraph) (data : namespace) :
  paragraphs d = Val ps ->
  compile_loop d data = domp_all d ps data.
Proof.
  unfold paragraphs, compile_loop. intros H.
  destruct (doc_sections d) as [|s others]; [discriminate H|].
  injection H as <-.
  set (body := doc_paragraphs d ++ table_paragraphs (doc_tables d)).
  rewrite (domp_all_app body).
  destruct (domp_all d body data) as [[d1 x]|]; [|reflexivity].
  cbn [bind]. now destruct (domp_all d1 _ data) as [[d2 y]|].
Qed.

(** X7. A template none of whose paragraphs holds a token compiles to
    itself, whatever the data: every paragraph of the walk comes back as it
    was, and so does the document. *)
Theorem compile_loop_without_tokens
    (d : document) (ps : list paragraph) (data : namespace) :
  paragraphs d = Val ps ->
  Forall (fun p => Token.search (paragraph_text p) = false) ps ->
  compile_loop d data = Val (d, ps).
Proof.
  intros Hw Hf. rewrite (compile_loop_eager _ _ _ Hw).
  now apply domp_all_no_tokens.
Qed.

Lemma compile_loop_without_tokens_witness :
  compile_loop nested_document [("body", VStr "x")]
  = Val (nested_document,
         map (fun s => mkParagraph [plain s])
             ["body"; "a1"; "inner"; "a2"; "b1"; "b2"; "head"; "foot"]).
Proof.
  apply (compile_loop_without_tokens nested_document).
  - reflexivity.
  - repeat constructor.
Defined.



Lemma nne_domp_all (ps : list paragraph) :
  forall doc data, no_name_error (domp_all doc ps data).
Proof.
  induction ps as [|p ps IH]; intros doc data; cbn [domp_all];
    [discriminate|].
  apply nne_bind; [apply nne_domp|]. intros [d1 p'].
  apply nne_bind; [apply IH|]. intros [d2 rest]. discriminate.
Qed.

(** X9. No document and no data make the loop of [compile] fail with
    [NameError]: [compile_expr] catches it, and nothing else in [domp] or
    in the handlers raises it. *)
Theorem compile_loop_never_raises_name_error
    (d : document) (data : namespace) :
  compile_loop d data <> Exc NameError.
Proof.
  unfold compile_loop.
  apply (nne_bind (domp_all d _ data)); [apply nne_domp_all|].
  intros [d1 body]. destruct (doc_sections d) as [|s others]; [discriminate|].
  apply (nne_bind (domp_all d1 _ data)); [apply nne_domp_all|].
  intros [d2 rest]. discriminate.
Qed.

Open Scope string_scope.

(* ------------------------------------------------------------------ *)
(** ** What is evaluated for a token *)

Lemma rev_append (a b : string) : PyStr.rev (a ++ b) = PyStr.rev b ++ PyStr.rev a.
Proof.
  induction a as [|c a IH]; cbn.
  - now rewrite append_empty.
  - now rewrite IH, string_app_assoc.
Qed.

Lemma rev_involutive (s : string) : PyStr.rev (PyStr.rev s) = s.
Proof.
  induction s as [|c s IH]; [reflexivity|].
  cbn. now rewrite rev_append, IH.
Qed.

Lemma all_chars_append (p : ascii -> bool) (a b : string) :
  Parse.all_chars p (a ++ b) = Parse.all_chars p a && Parse.all_chars p b.
Proof. induction a as [|c a IH]; cbn; [reflexivity|]. now rewrite IH, andb_assoc. Qed.

Lemma all_chars_rev (p : ascii -> bool) (s : string) :
  Parse.all_chars p (PyStr.rev s) = Parse.all_chars p s.
Proof.
  induction s as [|c s IH]; [reflexivity|].
  cbn. rewrite all_chars_append, IH. cbn. now rewrite andb_true_r, andb_comm.
Qed.

Lemma is_body_no_brace (c : ascii) :
  Token.is_body c = true -> PyStr.mem c "{}" = false.
Proof.
  intros H. cbn. destruct (Ascii.eqb_spec c "{") as [->|_]; [discriminate H|].
  destruct (Ascii.eqb_spec c "}") as [->|_]; [discriminate H | reflexivity].
Qed.

Lemma lstrip_body (body x : string) :
  body <> "" -> Parse.all_chars Token.is_body body = true ->
  PyStr.lstrip "{}" (body ++ x) = body ++ x.
Proof.
  intros Hne Hb. destruct body as [|b body]; [now elim Hne|].
  cbn in Hb. apply andb_true_iff in Hb as [Hb _].
  cbn [append PyStr.lstrip]. now rewrite (is_body_no_brace _ Hb).
Qed.

Lemma rev_nonempty (s : string) : s <> "" -> PyStr.rev s <> "".
Proof.
  intros H E. apply H. rewrite <- (rev_involutive s), E. reflexivity.
Qed.

(** a body wrapped in a brace on either side, on both or on none is
    stripped to the body *)
Lemma strip_token_body (o body c : string) :
  (o = "" \/ o = "{") -> (c = "" \/ c = "}") ->
  body <> "" -> Parse.all_chars Token.is_body body = true ->
  PyStr.strip "{}" (o ++ body ++ c) = body.
Proof.
  intros Ho Hc Hne Hb. unfold PyStr.strip, PyStr.rstrip.
  assert (Hl : PyStr.lstrip "{}" (o ++ body ++ c) = body ++ c).
  { destruct Ho as [->| ->].
    - change ("" ++ body ++ c) with (body ++ c). now apply lstrip_body.
    - change (PyStr.lstrip "{}" ("{" ++ body ++ c))
        with (PyStr.lstrip "{}" (body ++ c)).
      now apply lstrip_body. }
  rewrite Hl, rev_append.
  assert (Hr : PyStr.lstrip "{}" (PyStr.rev c ++ PyStr.rev body)
               = PyStr.rev body).
  { rewrite <- (append_empty (PyStr.rev body)) at 2.
    rewrite <- (lstrip_body (PyStr.rev body) "");
      [|now apply rev_nonempty | now rewrite all_chars_rev].
    rewrite append_empty. now destruct Hc as [->| ->]. }
  now rewrite Hr, rev_involutive.
Qed.

(** X10. Whatever token a scan finds, with its braces both there, one
    missing or none, the text [compile_expr] hands to [eval] is the body of
    the token alone: non-empty and made of body characters only. *)
Theorem found_token_source (s e m : string) :
  In (e, m) (Token.findall s) ->
  exists body,
    PyStr.strip "{}" (PyStr.tail e) = body
    /\ body <> "" /\ Parse.all_chars Token.is_body body = true
    /\ (e = "@" ++ body \/ e = "@{" ++ body
        \/ e = "@" ++ body ++ "}" \/ e = "@{" ++ body ++ "}").
Proof.
  intros H. destruct (findall_go_match _ _ _ _ H) as [s' Hm].
  destruct (match_at_spec _ _ _ Hm)
    as (o & body & c & r & -> & Ho & Hc & Hne & Hb & _ & _).
  exists body. cbn [PyStr.tail]. repeat split; try assumption.
  - now apply strip_token_body.
  - destruct Ho as [->| ->], Hc as [->| ->]; cbn;
      rewrite ?append_empty; tauto.
Qed.

Lemma found_token_source_witness :
  exists body,
    PyStr.strip "{}" (PyStr.tail "@{rows[0]") = body
    /\ body <> "" /\ Parse.all_chars Token.is_body body = true
    /\ ("@{rows[0]" = "@" ++ body \/ "@{rows[0]" = "@{" ++ body
        \/ "@{rows[0]" = "@" ++ body ++ "}"
        \/ "@{rows[0]" = "@{" ++ body ++ "}").
Proof.
  apply (found_token_source "see @{rows[0] here" "@{rows[0]" "").
  cbn. now left.
Defined.

(* ------------------------------------------------------------------ *)
(** ** A token that is one name *)

Lemma span_all (p : ascii -> bool) (s : string) :
  Parse.all_chars p s = true -> PyStr.span p s = (s, "").
Proof.
  induction s as [|c s IH]; cbn; [reflexivity|].
  intros H. apply andb_true_iff in H as [Hc Hs].
  now rewrite Hc, (IH Hs).
Qed.

Lemma is_word_is_body (c : ascii) :
  PyStr.is_ascii_word c = true -> Token.is_body c = true.
Proof. intros H. unfold Token.is_body, PyStr.is_word. now rewrite H. Qed.

Lemma all_chars_weaken (p q : ascii -> bool) (s : string) :
  (forall c, p c = true -> q c = true) ->
  Parse.all_chars p s = true -> Parse.all_chars q s = true.
Proof.
  intros Hpq. induction s as [|c s IH]; cbn; [reflexivity|].
  intros H. apply andb_true_iff in H as [Hc Hs].
  now rewrite (Hpq _ Hc), (IH Hs).
Qed.

Lemma is_word_not_quote (c : ascii) :
  PyStr.is_ascii_word c = true -> Parse.is_quote c = false.
Proof.
  intros H. unfold Parse.is_quote.
  destruct (Ascii.eqb_spec c "'") as [->|_]; [discriminate H|].
  destruct (Ascii.eqb_spec c PyStr.dquote) as [->|_];
    [discriminate H | reflexivity].
Qed.

Lemma parse_identifier (n : string) :
  is_identifier n = true -> Parse.parse_expr n = Val (EName n).
Proof.
  unfold is_identifier. intros H.
  apply andb_true_iff in H as [H Hkw].
  apply andb_true_iff in H as [H Hconst].
  apply andb_true_iff in H as [Hstart Hword].
  destruct n as [|c n]; [discriminate Hstart|].
  cbn [Parse.starts_with] in Hstart.
  apply negb_true_iff in Hstart, Hconst, Hkw.
  assert (Hc : PyStr.is_ascii_word c = true)
    by (cbn in Hword; now apply andb_true_iff in Hword as [? _]).
  assert (Hatom : Parse.parse_atom (String c n) = Val (EName (String c n), "")).
  { unfold Parse.parse_atom.
    rewrite (is_word_not_quote _ Hc), Hc, (span_all _ _ Hword).
    cbn [Parse.starts_with Parse.all_chars]. rewrite Hstart. cbn [andb].
    unfold Parse.word_atom. rewrite Hkw.
    unfold Py.in_names in Hconst. cbn [existsb] in Hconst.
    apply orb_false_iff in Hconst as [H1 Hconst].
    apply orb_false_iff in Hconst as [H2 Hconst].
    apply orb_false_iff in Hconst as [H3 _].
    now rewrite H1, H2, H3. }
  unfold Parse.parse_expr. cbn [Parse.parse]. rewrite Hatom. reflexivity.
Qed.

Lemma name_token_eval (n : string) (data : namespace) :
  is_identifier n = true ->
  compile_expr (String "@" n) data
  = match Eval.resolve [] data n with
    | Val v => Val v
    | Exc NameError => Val (VStr (String "@" n))
    | Exc e => Exc e
    end.
Proof.
  intros Hid.
  assert (Hstrip : PyStr.strip "{}" n = n).
  { unfold is_identifier in Hid.
    apply andb_true_iff in Hid as [Hid _].
    apply andb_true_iff in Hid as [Hid _].
    apply andb_true_iff in Hid as [Hstart Hword].
    rewrite <- (append_empty n) at 1.
    apply (strip_token_body "" n ""); auto.
    - now destruct n.
    - eapply all_chars_weaken; [exact is_word_is_body | exact Hword]. }
  unfold compile_expr. cbn [PyStr.tail]. rewrite Hstrip.
  unfold Eval.eval. now rewrite (parse_identifier _ Hid).
Qed.

Lemma name_token_sentinel (n : string) (data : namespace) :
  is_identifier n = true ->
  Eval.lookup n data = None ->
  Eval.eval_expr [] [] (EName n) = Exc NameError ->
  compile_expr (String "@" n) data = Val (VStr (String "@" n)).
Proof.
  intros Hid Hn He. rewrite (name_token_eval _ _ Hid).
  cbn [Eval.eval_expr] in He. unfold Eval.resolve in He |- *.
  rewrite Hn. cbn [Eval.lookup] in He |- *. now rewrite He.
Qed.

(** X11. For a token that is the at sign and one identifier, [compile_expr]
    is the lookup in the data: a bound name gives its value, whatever the
    builtins hold under that name, and a name bound neither in the data nor
    in the builtins gives back the token text. *)
Theorem name_token_is_lookup (n : string) (data : namespace) :
  is_identifier n = true ->
  (forall v, Eval.lookup n data = Some v ->
             compile_expr (String "@" n) data = Val v)
  /\ (Eval.lookup n data = None ->
      Eval.eval_expr [] [] (EName n) = Exc NameError ->
      compile_expr (String "@" n) data = Val (VStr (String "@" n))).
Proof.
  intros Hid. split.
  - intros v Hv. rewrite (name_token_eval _ _ Hid).
    unfold Eval.resolve. now rewrite Hv.
  - intros Hn He. now apply name_token_sentinel.
Qed.

Lemma name_token_is_lookup_witness :
  (forall v, Eval.lookup "len" [("len", VInt 3)] = Some v ->
             compile_expr (String "@" "len") [("len", VInt 3)] = Val v)
  /\ (Eval.lookup "len" [("len", VInt 3)] = None ->
      Eval.eval_expr [] [] (EName "len") = Exc NameError ->
      compile_expr (String "@" "len") [("len", VInt 3)]
      = Val (VStr (String "@" "len"))).
Proof.
  apply (name_token_is_lookup "len" [("len", VInt 3)]).
  reflexivity.
Defined.

(* ------------------------------------------------------------------ *)
(** ** What the handlers do with a value *)








(* ------------------------------------------------------------------ *)
(** ** [tbl] on a matrix with short rows *)

Open Scope list_scope.

Lemma fill_rows_padded (m : list (list value)) :
  forall (t : new_table) (ridx : nat) (pre : list string),
    tbl_cells t = pre ++ repeat "" (List.length m * tbl_cols t) ->
    List.length pre = ridx * tbl_cols t ->
    Forall (fun row => List.length row <= tbl_cols t) m ->
    fill_rows t ridx (map VList m)
    = Val (with_cells t (pre ++ flat_map (padded_row (tbl_cols t)) m)).
Proof.
  induction m as [|row m IH]; intros t ridx pre Ht Hp Hm.
  - cbn in Ht |- *. unfold with_cells. rewrite <- Ht. now destruct t.
  - inversion Hm as [|? ? Hrow Hm']; subst.
    cbn [map fill_rows iterate bind].
    set (C := tbl_cols t) in *.
    assert (Hcells : tbl_cells t
                     = pre ++ repeat "" (List.length row)
                           ++ (repeat "" (C - List.length row)
                               ++ repeat "" (List.length m * C))).
    { rewrite Ht. f_equal. rewrite app_assoc, <- !repeat_app.
      f_equal. cbn [List.length]. lia. }
    rewrite (fill_row_cells row t ridx 0 pre (repeat "" (List.length row))
               (repeat "" (C - List.length row)
                ++ repeat "" (List.length m * C)) Hcells);
      [|fold C; lia | apply repeat_length].
    cbn [bind].
    rewrite (IH _ (S ridx) (pre ++ padded_row C row)).
    + unfold with_cells. cbn. now rewrite <- !app_assoc.
    + unfold padded_row. cbn. now rewrite <- !app_assoc.
    + unfold padded_row. cbn.
      rewrite !length_app, length_map, repeat_length, Hp. fold C. lia.
    + exact Hm'.
Qed.

(** X15. [tbl] takes the number of columns from the first row.  On a list
    of lists none of whose rows is longer than the first, the rows shorter
    than the first leave the cells at their end empty, and no error is
    raised. *)
Theorem tbl_short_rows_padded
    (doc : document) (r : run) (expr md : string) (data : namespace)
    (first : list value) (rest : list (list value)) :
  pictures r = [] ->
  compile_expr expr data = Val (VList (map VList (first :: rest))) ->
  Forall (fun row => List.length row <= List.length first) rest ->
  tbl doc r expr md data
  = Val (doc,
         mkRun (PyStr.replace (expr ++ md) "" (text r)) []
               (mkTable (List.length (first :: rest)) (List.length first)
                        "Table Grid"
                        (flat_map (padded_row (List.length first))
                                  (first :: rest))
                :: following r)).
Proof.
  intros Hr Hv Hshort. set (m := first :: rest).
  unfold tbl, set_text. rewrite Hv. cbn -[flat_map fill_rows Nat.mul].
  rewrite length_map.
  change (VList first :: map VList rest) with (map VList m).
  unfold Docx.set_style. cbn [tbl_rows tbl_cols tbl_cells].
  set (t0 := mkTable (S (List.length rest)) (List.length first)
                     "Table Grid"
                     (repeat "" (S (List.length rest) * List.length first))).
  rewrite (fill_rows_padded m t0 0 []).
  - cbn [bind]. unfold Docx.addnext. f_equal. f_equal; try reflexivity.
    unfold with_appended. cbn. rewrite removelast_last. now destruct doc.
  - reflexivity.
  - reflexivity.
  - subst m. constructor; [apply Nat.le_refl | exact Hshort].
Qed.

Lemma tbl_short_rows_padded_witness :
  tbl empty_doc (plain "@g!tbl") "@g" "!tbl"
      [("g", VList [VList [VInt 1; VInt 2]; VList [VInt 3]])]
  = Val (empty_doc,
         mkRun (PyStr.replace ("@g" ++ "!tbl") "" (text (plain "@g!tbl")))
               []
               (mkTable (List.length [[VInt 1; VInt 2]; [VInt 3]])
                        (List.length [VInt 1; VInt 2]) "Table Grid"
                        (flat_map (padded_row (List.length [VInt 1; VInt 2]))
                                  [[VInt 1; VInt 2]; [VInt 3]])
                :: following (plain "@g!tbl"))).
Proof.
  apply (tbl_short_rows_padded empty_doc (plain "@g!tbl") "@g" "!tbl"
           [("g", VList [VList [VInt 1; VInt 2]; VList [VInt 3]])]
           [VInt 1; VInt 2] [[VInt 3]]).
  - reflexivity.
  - reflexivity.
  - repeat constructor.
Defined.

Open Scope string_scope.

(* ------------------------------------------------------------------ *)
(** ** The first failure ends the compilation *)

Open Scope list_scope.

(** X16. An exception of [domp] on one paragraph is the outcome of the
    whole loop of [compile], whatever follows that paragraph in the walk:
    nothing is compiled past the first failure and no result is returned. *)
Theorem compile_loop_aborts_on_first_error
    (d d1 : document) (a a' b : list paragraph) (p : paragraph)
    (data : namespace) (e : pyerr) :
  paragraphs d = Val (a ++ p :: b) ->
  domp_all d a data = Val (d1, a') ->
  domp p d data = Exc e ->
  compile_loop d data = Exc e.
Proof.
  intros Hw Ha Hp. rewrite (compile_loop_eager _ _ _ Hw), domp_all_app, Ha.
  cbn [bind]. destruct (domp_all_frame _ _ _ _ _ Ha) as [-> _].
  cbn [domp_all]. now rewrite Hp.
Qed.

Lemma compile_loop_aborts_on_first_error_witness :
  compile_loop
    (mkDocument [mkParagraph [plain "Dear @n"]; mkParagraph [plain "@n!io"];
                 mkParagraph [plain "@n"]] []
                [mkSection (mkBlock [] []) (mkBlock [] [])] [])
    [("n", VStr "Ann")]
  = Exc TypeError.
Proof.
  apply (compile_loop_aborts_on_first_error
           (mkDocument [mkParagraph [plain "Dear @n"];
                        mkParagraph [plain "@n!io"]; mkParagraph [plain "@n"]]
                       [] [mkSection (mkBlock [] []) (mkBlock [] [])] [])
           (mkDocument [mkParagraph [plain "Dear @n"];
                        mkParagraph [plain "@n!io"]; mkParagraph [plain "@n"]]
                       [] [mkSection (mkBlock [] []) (mkBlock [] [])] [])
           [mkParagraph [plain "Dear @n"]] [mkParagraph [plain "Dear Ann"]]
           [mkParagraph [plain "@n"]] (mkParagraph [plain "@n!io"])
           [("n", VStr "Ann")] TypeError); reflexivity.
Defined.

Open Scope string_scope.

(* ------------------------------------------------------------------ *)
(** ** Values the handlers pass over *)







(* ------------------------------------------------------------------ *)
(** ** The word class beyond ASCII *)

(** a name with an accented letter (code point 233) is one token *)
Example findall_accented_letter :
  let e_acute := String (ascii_of_nat 233) "" in
  Token.findall ("@caf" ++ e_acute ++ "!img x")
  = [("@caf" ++ e_acute, "!img")]
  /\ Token.search ("@" ++ e_acute) = true.
Proof. split; reflexivity. Qed.
